(** * calendar-system: the event store, its projection and its persistence

    A shallow embedding of [src/App.js] (the [App] component) together with
    the parts of the JavaScript runtime its handlers call: strings as
    sequences of UTF-16 code units, [Date] time values, [JSON.parse] with a
    reviver and [JSON.stringify] on the records the store holds.

    The first half of the file holds the definitions, the second half the
    lemmas and the theorems about them. *)

From Stdlib Require Import ZArith NArith Lia String Ascii.
From stdpp Require Import gmap list.

#[local] Set Warnings "-register-all".
Local Open Scope Z_scope.

(* ===================================================================== *)
(** * Part I: definitions                                                  *)
(* ===================================================================== *)

(** ** The JavaScript runtime, as far as [App.js] uses it *)

Module JS.

(** A JavaScript string is a sequence of 16-bit code units. *)
Abbreviation jsstring := (list N).

(** The code units of an ASCII literal. *)
Definition js (s : string) : jsstring :=
  N_of_ascii <$> list_ascii_of_string s.

(** [WhiteSpace] and [LineTerminator] of ECMA-262, the code units that
    [String.prototype.trim] strips. *)
Definition is_white_space (c : N) : bool :=
  ((9 <=? c) && (c <=? 13) || (c =? 32) || (c =? 160) || (c =? 5760)
   || (8192 <=? c) && (c <=? 8202) || (c =? 8232) || (c =? 8233)
   || (c =? 8239) || (c =? 8287) || (c =? 12288) || (c =? 65279))%N.

Fixpoint trimStart (s : jsstring) : jsstring :=
  match s with
  | c :: s' => if is_white_space c then trimStart s' else s
  | [] => []
  end.

Definition trimEnd (s : jsstring) : jsstring :=
  reverse (trimStart (reverse s)).

(** [s.trim()] *)
Definition trim (s : jsstring) : jsstring := trimEnd (trimStart s).

(** A string in a boolean position: only the empty string is falsy. *)
Definition string_truthy (s : jsstring) : bool :=
  match s with [] => false | _ :: _ => true end.

Fixpoint startsWith (s p : jsstring) {struct p} : bool :=
  match p, s with
  | [], _ => true
  | _ :: _, [] => false
  | a :: p', b :: s' => (a =? b)%N && startsWith s' p'
  end.

(** [s.includes(p)]: [p] occurs in [s] at some position. *)
Fixpoint includes (s p : jsstring) : bool :=
  startsWith s p ||
  match s with
  | [] => false
  | _ :: s' => includes s' p
  end.

(** [toLowerCase] restricted to the ASCII letters; the instance of the
    engine's case mapping used to run the model on ASCII data. *)
Definition toLowerCase_ascii (s : jsstring) : jsstring :=
  (λ c, if (65 <=? c) && (c <=? 90) then c + 32 else c)%N <$> s.

(** *** Decimal digits *)

Definition is_digit (c : N) : bool := ((48 <=? c) && (c <=? 57))%N.

Definition digit_of (d : Z) : N := Z.to_N (48 + d).

(** The [w] low decimal digits of [n], most significant first. *)
Fixpoint digits (w : nat) (n : Z) : jsstring :=
  match w with
  | O => []
  | S w' => digits w' (n / 10) ++ [digit_of (n mod 10)]
  end.

(** The number a run of decimal digits denotes; [None] when a code unit
    is not a digit. *)
Fixpoint number_of_digits_from (acc : Z) (s : jsstring) : option Z :=
  match s with
  | [] => Some acc
  | c :: s' =>
      if is_digit c then number_of_digits_from (10 * acc + (Z.of_N c - 48)) s'
      else None
  end.

Definition number_of_digits (s : jsstring) : option Z :=
  number_of_digits_from 0 s.

(** *** Dates (ECMA-262, Date objects) *)

(** A [Date] object holds a time value: NaN (an invalid date) or a whole
    number of milliseconds since the epoch, at most 8.64e15 in magnitude. *)
Variant Date := InvalidDate | TimeValue (t : Z).

Definition msPerDay : Z := 86400000.
Definition maxTime : Z := 8640000000000000.

Definition TimeClip (t : Z) : Date :=
  if Z.abs t <=? maxTime then TimeValue t else InvalidDate.

Definition Day (t : Z) : Z := t / msPerDay.
Definition TimeWithinDay (t : Z) : Z := t mod msPerDay.

Definition DaysInYear (y : Z) : Z :=
  if negb (y mod 4 =? 0) then 365
  else if negb (y mod 100 =? 0) then 366
  else if negb (y mod 400 =? 0) then 365
  else 366.

Definition DayFromYear (y : Z) : Z :=
  365 * (y - 1970) + (y - 1969) / 4 - (y - 1901) / 100 + (y - 1601) / 400.

(** The year of day number [d]: the largest [y] with [DayFromYear y <= d].
    The mean year of 146097/400 days gives it up to one year. *)
Definition YearFromDay (d : Z) : Z :=
  let y := 1970 + (400 * d) / 146097 in
  if d <? DayFromYear y then y - 1
  else if DayFromYear (y + 1) <=? d then y + 1
  else y.

Definition YearFromTime (t : Z) : Z := YearFromDay (Day t).

Definition InLeapYear (t : Z) : Z :=
  if DaysInYear (YearFromTime t) =? 366 then 1 else 0.

Definition DayWithinYear (t : Z) : Z := Day t - DayFromYear (YearFromTime t).

(** The day within the year on which month [m] (0 to 11) starts; [leap] is
    1 in a leap year and 0 otherwise. Month 12 stands for the year's end. *)
Definition month_start (leap m : Z) : Z :=
  if m <=? 0 then 0
  else if m =? 1 then 31
  else if m =? 2 then 59 + leap
  else if m =? 3 then 90 + leap
  else if m =? 4 then 120 + leap
  else if m =? 5 then 151 + leap
  else if m =? 6 then 181 + leap
  else if m =? 7 then 212 + leap
  else if m =? 8 then 243 + leap
  else if m =? 9 then 273 + leap
  else if m =? 10 then 304 + leap
  else if m =? 11 then 334 + leap
  else 365 + leap.

Definition month_of_day (leap dwy : Z) : Z :=
  if dwy <? 31 then 0
  else if dwy <? 59 + leap then 1
  else if dwy <? 90 + leap then 2
  else if dwy <? 120 + leap then 3
  else if dwy <? 151 + leap then 4
  else if dwy <? 181 + leap then 5
  else if dwy <? 212 + leap then 6
  else if dwy <? 243 + leap then 7
  else if dwy <? 273 + leap then 8
  else if dwy <? 304 + leap then 9
  else if dwy <? 334 + leap then 10
  else 11.

Definition MonthFromTime (t : Z) : Z :=
  month_of_day (InLeapYear t) (DayWithinYear t).

Definition DateFromTime (t : Z) : Z :=
  DayWithinYear t - month_start (InLeapYear t) (MonthFromTime t) + 1.

Definition HourFromTime (t : Z) : Z := (t / 3600000) mod 24.
Definition MinFromTime (t : Z) : Z := (t / 60000) mod 60.
Definition SecFromTime (t : Z) : Z := (t / 1000) mod 60.
Definition msFromTime (t : Z) : Z := t mod 1000.

(** [MakeDay] for a month in 0..11, [MakeTime] and [MakeDate]. *)
Definition MakeDay (year month date : Z) : Z :=
  DayFromYear year
  + month_start (if DaysInYear year =? 366 then 1 else 0) month
  + date - 1.

Definition MakeTime (hour min sec ms : Z) : Z :=
  hour * 3600000 + min * 60000 + sec * 1000 + ms.

Definition MakeDate (day time : Z) : Z := day * msPerDay + time.

(** The year of an ISO string: four digits from 0000 to 9999, otherwise a
    sign and six digits. *)
Definition iso_year (y : Z) : jsstring :=
  if (0 <=? y) && (y <=? 9999) then digits 4 y
  else (if y <? 0 then js "-" else js "+") ++ digits 6 (Z.abs y).

(** [Date.prototype.toISOString] on a valid time value:
    [YYYY-MM-DDTHH:mm:ss.sssZ]. *)
Definition toISOString (t : Z) : jsstring :=
  iso_year (YearFromTime t) ++ js "-" ++ digits 2 (MonthFromTime t + 1)
  ++ js "-" ++ digits 2 (DateFromTime t)
  ++ js "T" ++ digits 2 (HourFromTime t)
  ++ js ":" ++ digits 2 (MinFromTime t)
  ++ js ":" ++ digits 2 (SecFromTime t)
  ++ js "." ++ digits 3 (msFromTime t) ++ js "Z".

(** Reading a string from its start: exactly [w] digits, giving their
    number and the rest; the code unit [c], giving the rest. *)
Definition read_digits (w : nat) (s : jsstring) : option (Z * jsstring) :=
  if bool_decide (length (take w s) = w)
  then n ← number_of_digits (take w s); Some (n, drop w s)
  else None.

Definition expect (c : N) (s : jsstring) : option jsstring :=
  match s with
  | c' :: s' => if (c' =? c)%N then Some s' else None
  | [] => None
  end.

(** The year: four digits, or a sign and six digits, which are not minus
    zero. *)
Definition parse_iso_year (s : jsstring) : option (Z * jsstring) :=
  match s with
  | c :: s' =>
      if (c =? 43)%N then read_digits 6 s'
      else if (c =? 45)%N then
        '(y, r) ← read_digits 6 s';
        if y =? 0 then None else Some (- y, r)
      else read_digits 4 s
  | [] => None
  end.

(** The time value of a string in the format [toISOString] writes, with
    every field in its range; [None] for any other string. *)
Definition parse_iso (s : jsstring) : option Z :=
  '(y, s) ← parse_iso_year s;
  s ← expect 45 s;
  '(mo, s) ← read_digits 2 s;
  s ← expect 45 s;
  '(d, s) ← read_digits 2 s;
  s ← expect 84 s;
  '(h, s) ← read_digits 2 s;
  s ← expect 58 s;
  '(mi, s) ← read_digits 2 s;
  s ← expect 58 s;
  '(sec, s) ← read_digits 2 s;
  s ← expect 46 s;
  '(ms, s) ← read_digits 3 s;
  s ← expect 90 s;
  let leap := if DaysInYear y =? 366 then 1 else 0 in
  if bool_decide (s = []) && (1 <=? mo) && (mo <=? 12) && (1 <=? d)
     && (d <=? month_start leap mo - month_start leap (mo - 1))
     && (h <=? 23) && (mi <=? 59) && (sec <=? 59)
  then Some (MakeDate (MakeDay y (mo - 1) d) (MakeTime h mi sec ms))
  else None.

(** *** JSON values *)

(** A value [JSON.parse] can build, and with [VDate] what the reviver of
    [App.js] puts in its place. A number is the decimal [m * 10^e] in its
    shortest form ([e <= 0], and [m] not a multiple of 10 unless [e = 0]):
    exact for the integers the store keeps as ids. An object lists its own
    properties in the order they were first defined. *)
Inductive value :=
  | VNull
  | VBool (b : bool)
  | VNum (m e : Z)
  | VStr (s : jsstring)
  | VDate (d : Date)
  | VArr (items : list value)
  | VObj (props : list (jsstring * value)).

(** What the language leaves to the engine and the host: the Unicode case
    mapping behind [String.prototype.toLowerCase]; [Date.parse] on a
    string that is not in the format [toISOString] writes (other ISO forms
    read in the local time zone, legacy formats); and the string an array
    or an object converts to ([ToPrimitive], which prints numbers and
    dates). *)
Class Engine := {
  toLowerCase : jsstring → jsstring;
  Date_parse_other : jsstring → Date;
  ToPrimitive_string : value → jsstring;
}.

(** *** [JSON.parse]: the lexer *)

Variant token :=
  | TLBrace | TRBrace | TLBracket | TRBracket | TColon | TComma
  | TString (s : jsstring)
  | TNumber (m e : Z)
  | TTrue | TFalse | TNull.

(** The shortest form of the decimal [m * 10^e]: trailing zeros of [m]
    are moved into the exponent while it is negative. *)
Fixpoint strip_zeros (n : nat) (m e : Z) : Z * Z :=
  match n with
  | O => (m, e)
  | S n' =>
      if (e <? 0) && (m mod 10 =? 0) then strip_zeros n' (m / 10) (e + 1)
      else (m, e)
  end.

Definition normal_decimal (m e : Z) : Z * Z :=
  if m =? 0 then (0, 0)
  else if 0 <=? e then (m * 10 ^ e, 0)
  else strip_zeros (Z.to_nat (- e)) m e.

(** The longest prefix of digits, and what follows it. *)
Fixpoint span_digits (s : jsstring) : jsstring * jsstring :=
  match s with
  | c :: s' =>
      if is_digit c then let '(ds, r) := span_digits s' in (c :: ds, r)
      else ([], s)
  | [] => ([], [])
  end.

(** The JSON number a lexeme denotes: an optional minus sign; an integer
    part, which is 0 or starts with a digit from 1 to 9; an optional
    fraction, a dot and at least one digit; an optional exponent, e or E,
    an optional sign and at least one digit. *)
Definition number_token (s : jsstring) : option token :=
  let '(neg, s1) :=
    match s with
    | c :: r => if (c =? 45)%N then (true, r) else (false, s)
    | [] => (false, s)
    end in
  let '(ip, s2) := span_digits s1 in
  match ip with
  | [] => None
  | d :: ip' =>
      if (d =? 48)%N && negb (bool_decide (ip' = [])) then None
      else
        '(fp, s3) ←
          match s2 with
          | c :: r =>
              if (c =? 46)%N then
                let '(fp, r') := span_digits r in
                if bool_decide (fp = []) then None else Some (fp, r')
              else Some ([], s2)
          | [] => Some ([], s2)
          end;
        '(ex, s4) ←
          match s3 with
          | c :: r =>
              if (c =? 101)%N || (c =? 69)%N then
                let '(eneg, r1) :=
                  match r with
                  | c' :: r1 =>
                      if (c' =? 45)%N then (true, r1)
                      else if (c' =? 43)%N then (false, r1)
                      else (false, r)
                  | [] => (false, r)
                  end in
                let '(ds, r2) := span_digits r1 in
                if bool_decide (ds = []) then None
                else x ← number_of_digits ds;
                     Some (if eneg : bool then - x else x, r2)
              else Some (0, s3)
          | [] => Some (0, s3)
          end;
        if bool_decide (s4 = []) then
          m ← number_of_digits (ip ++ fp);
          let '(m', e') :=
            normal_decimal (if neg : bool then - m else m)
                           (ex - Z.of_nat (length fp)) in
          Some (TNumber m' e')
        else None
  end.

Definition word_token (s : jsstring) : option token :=
  if bool_decide (s = js "true") then Some TTrue
  else if bool_decide (s = js "false") then Some TFalse
  else if bool_decide (s = js "null") then Some TNull
  else None.

Definition hex_digit (c : N) : option N :=
  (if (48 <=? c) && (c <=? 57) then Some (c - 48)
   else if (97 <=? c) && (c <=? 102) then Some (c - 87)
   else if (65 <=? c) && (c <=? 70) then Some (c - 55)
   else None)%N.

Definition is_json_ws (c : N) : bool :=
  ((c =? 32) || (c =? 9) || (c =? 10) || (c =? 13))%N.

(** The code units a number lexeme is made of. *)
Definition is_number_char (c : N) : bool :=
  (is_digit c || (c =? 45) || (c =? 43) || (c =? 46) || (c =? 101)
   || (c =? 69))%N.

Definition is_word_char (c : N) : bool := ((97 <=? c) && (c <=? 122))%N.

(** The character an escape sequence denotes, by the code unit after the
    backslash. *)
Definition escape_char (c : N) : option N :=
  (if c =? 34 then Some 34
   else if c =? 92 then Some 92
   else if c =? 47 then Some 47
   else if c =? 98 then Some 8
   else if c =? 102 then Some 12
   else if c =? 110 then Some 10
   else if c =? 114 then Some 13
   else if c =? 116 then Some 9
   else None)%N.

(** The lexer's states: between tokens; inside a string (the code units
    read so far, last first), after its backslash, inside a four-digit
    hex escape (the value of the hex digits read and how many); inside a
    number or a word (the lexeme so far, last first). *)
Variant lex_state :=
  | LStart
  | LString (acc : jsstring)
  | LEscape (acc : jsstring)
  | LUnicode (acc : jsstring) (v : N) (n : nat)
  | LNumber (acc : jsstring)
  | LWord (acc : jsstring).

(** What a code unit does between tokens. *)
Variant start_action :=
  Skip | Emit (t : token) | Enter (st : lex_state) | Reject.

Definition start_char (c : N) : start_action :=
  (if is_json_ws c then Skip
   else if c =? 123 then Emit TLBrace
   else if c =? 125 then Emit TRBrace
   else if c =? 91 then Emit TLBracket
   else if c =? 93 then Emit TRBracket
   else if c =? 58 then Emit TColon
   else if c =? 44 then Emit TComma
   else if c =? 34 then Enter (LString [])
   else if is_digit c || (c =? 45) then Enter (LNumber [c])
   else if is_word_char c then Enter (LWord [c])
   else Reject)%N.

Fixpoint lex (st : lex_state) (s : jsstring) : option (list token) :=
  match s with
  | [] =>
      match st with
      | LStart => Some []
      | LNumber acc => t ← number_token (reverse acc); Some [t]
      | LWord acc => t ← word_token (reverse acc); Some [t]
      | LString _ | LEscape _ | LUnicode _ _ _ => None
      end
  | c :: s' =>
      let from_start (before : list token) :=
        match start_char c with
        | Skip => ts ← lex LStart s'; Some (before ++ ts)
        | Emit t => ts ← lex LStart s'; Some (before ++ t :: ts)
        | Enter st' => ts ← lex st' s'; Some (before ++ ts)
        | Reject => None
        end in
      match st with
      | LStart => from_start []
      | LString acc =>
          if (c =? 34)%N
          then ts ← lex LStart s'; Some (TString (reverse acc) :: ts)
          else if (c =? 92)%N then lex (LEscape acc) s'
          else if (c <? 32)%N then None
          else lex (LString (c :: acc)) s'
      | LEscape acc =>
          if (c =? 117)%N then lex (LUnicode acc 0%N 0) s'
          else match escape_char c with
               | Some x => lex (LString (x :: acc)) s'
               | None => None
               end
      | LUnicode acc v n =>
          match hex_digit c with
          | Some d =>
              if bool_decide (n = 3%nat)
              then lex (LString ((16 * v + d)%N :: acc)) s'
              else lex (LUnicode acc (16 * v + d)%N (S n)) s'
          | None => None
          end
      | LNumber acc =>
          if is_number_char c then lex (LNumber (c :: acc)) s'
          else t ← number_token (reverse acc); from_start [t]
      | LWord acc =>
          if is_word_char c then lex (LWord (c :: acc)) s'
          else t ← word_token (reverse acc); from_start [t]
      end
  end.

(** *** [JSON.parse]: the grammar *)

(** [CreateDataProperty]: a repeated key keeps its place and takes the
    later value. *)
Fixpoint define_property (k : jsstring) (v : value)
    (props : list (jsstring * value)) : list (jsstring * value) :=
  match props with
  | [] => [(k, v)]
  | (k', v') :: props' =>
      if bool_decide (k' = k) then (k, v) :: props'
      else (k', v') :: define_property k v props'
  end.

Definition make_object (members : list (jsstring * value)) : value :=
  VObj (foldl (λ props kv, define_property kv.1 kv.2 props) [] members).

(** One unit of fuel per value, array element and object member. *)
Fixpoint parse_value (fuel : nat) (ts : list token)
    : option (value * list token) :=
  match fuel with
  | O => None
  | S fuel' =>
      match ts with
      | TNull :: r => Some (VNull, r)
      | TTrue :: r => Some (VBool true, r)
      | TFalse :: r => Some (VBool false, r)
      | TNumber m e :: r => Some (VNum m e, r)
      | TString s :: r => Some (VStr s, r)
      | TLBracket :: TRBracket :: r => Some (VArr [], r)
      | TLBracket :: r =>
          '(vs, r1) ← parse_elements fuel' r; Some (VArr vs, r1)
      | TLBrace :: TRBrace :: r => Some (VObj [], r)
      | TLBrace :: r =>
          '(ms, r1) ← parse_members fuel' r; Some (make_object ms, r1)
      | _ => None
      end
  end
with parse_elements (fuel : nat) (ts : list token)
    : option (list value * list token) :=
  match fuel with
  | O => None
  | S fuel' =>
      '(v, r) ← parse_value fuel' ts;
      match r with
      | TComma :: r1 =>
          '(vs, r2) ← parse_elements fuel' r1; Some (v :: vs, r2)
      | TRBracket :: r1 => Some ([v], r1)
      | _ => None
      end
  end
with parse_members (fuel : nat) (ts : list token)
    : option (list (jsstring * value) * list token) :=
  match fuel with
  | O => None
  | S fuel' =>
      match ts with
      | TString k :: TColon :: r =>
          '(v, r1) ← parse_value fuel' r;
          match r1 with
          | TComma :: r2 =>
              '(ms, r3) ← parse_members fuel' r2; Some ((k, v) :: ms, r3)
          | TRBrace :: r2 => Some ([(k, v)], r2)
          | _ => None
          end
      | _ => None
      end
  end.

(** The JSON text as a value, before any reviver; [None] is the
    [SyntaxError]. A parse spends at most one unit of fuel per token. *)
Definition parse_text (text : jsstring) : option value :=
  ts ← lex LStart text;
  '(v, r) ← parse_value (S (length ts)) ts;
  if bool_decide (r = []) then Some v else None.

(** *** [JSON.stringify] *)

Definition hex_char (d : N) : N := (if d <? 10 then 48 + d else 87 + d)%N.

(** A four-digit hex escape, with lower-case digits. *)
Definition unicode_escape (c : N) : jsstring :=
  ([92; 117; hex_char (c / 4096 mod 16); hex_char (c / 256 mod 16);
    hex_char (c / 16 mod 16); hex_char (c mod 16)])%N.

Definition is_high_surrogate (c : N) : bool :=
  ((55296 <=? c) && (c <=? 56319))%N.
Definition is_low_surrogate (c : N) : bool :=
  ((56320 <=? c) && (c <=? 57343))%N.

(** [QuoteJSONString], one code unit: the short escapes, a hex escape
    for the other control characters and for a surrogate that is not in
    a pair, the code unit itself otherwise. *)
Definition escape_unit (in_pair : bool) (c : N) : jsstring :=
  (if c =? 8 then [92; 98]
   else if c =? 9 then [92; 116]
   else if c =? 10 then [92; 110]
   else if c =? 12 then [92; 102]
   else if c =? 13 then [92; 114]
   else if c =? 34 then [92; 34]
   else if c =? 92 then [92; 92]
   else if c <? 32 then unicode_escape c
   else if (is_high_surrogate c || is_low_surrogate c) && negb in_pair
        then unicode_escape c
   else [c])%N.

(** [QuoteJSONString] without the quotes. A high surrogate is in a pair
    when a low surrogate follows it, a low surrogate when the code unit
    before it, [prev_high] says, was a high surrogate. *)
Fixpoint escape_from (prev_high : bool) (s : jsstring) : jsstring :=
  match s with
  | [] => []
  | c :: s' =>
      escape_unit
        (if is_high_surrogate c
         then match s' with d :: _ => is_low_surrogate d | [] => false end
         else prev_high) c
      ++ escape_from (is_high_surrogate c) s'
  end.

Definition quote (s : jsstring) : jsstring :=
  [34%N] ++ escape_from false s ++ [34%N].

(** The decimal numeral of an integer, as [Number::toString] writes the
    integers a double holds exactly: no leading zero, a minus sign when
    negative. A number below [2^(k+1)] has at most [k+1] digits. *)
Fixpoint strip_leading_zeros (s : jsstring) : jsstring :=
  match s with
  | c :: s' =>
      match s' with
      | [] => s
      | _ :: _ => if (c =? 48)%N then strip_leading_zeros s' else s
      end
  | [] => []
  end.

Definition stringify_natural (n : Z) : jsstring :=
  strip_leading_zeros (digits (S (Z.to_nat (Z.log2 n))) n).

Definition stringify_integer (z : Z) : jsstring :=
  if z <? 0 then 45%N :: stringify_natural (- z) else stringify_natural z.

(** [Date.prototype.toJSON]: an invalid date becomes [null]. *)
Definition stringify_Date (d : Date) : jsstring :=
  match d with
  | InvalidDate => js "null"
  | TimeValue t => quote (toISOString t)
  end.

(** [parts.join(sep)] on strings. *)
Fixpoint join (sep : jsstring) (parts : list jsstring) : jsstring :=
  match parts with
  | [] => []
  | p :: parts' =>
      match parts' with
      | [] => p
      | _ :: _ => p ++ sep ++ join sep parts'
      end
  end.

(** The names every object literal inherits from [Object.prototype] in a
    browser; each is bound to a function or an object, which is truthy. *)
Definition Object_prototype_keys : list jsstring :=
  js <$> [ "constructor"; "hasOwnProperty"; "isPrototypeOf";
           "propertyIsEnumerable"; "toLocaleString"; "toString"; "valueOf";
           "__proto__"; "__defineGetter__"; "__defineSetter__";
           "__lookupGetter__"; "__lookupSetter__" ]%string.

(** [o[k]] in a boolean position, for an object literal [o] whose own
    properties hold booleans: the own property when there is one, else the
    property inherited from [Object.prototype], else [undefined]. *)
Definition get_truthy (o : gmap (list N) bool) (k : jsstring) : bool :=
  match o !! k with
  | Some b => b
  | None => bool_decide (k ∈ Object_prototype_keys)
  end.

(** *** Completions, [new Date(value)] and [JSON.parse(text, reviver)] *)

Variant error := SyntaxError.

(** How an evaluation ends: with a value, or by throwing. *)
Variant completion (A : Type) := Normal (a : A) | Throw (e : error).
Arguments Normal {A} a.
Arguments Throw {A} e.

Section Runtime.
Context `{Engine}.

(** [Date.parse]: the ISO format first, the engine's own parser after. *)
Definition Date_parse (s : jsstring) : Date :=
  match parse_iso s with
  | Some t => TimeClip t
  | None => Date_parse_other s
  end.

(** [new Date(value)]: the time value of a date, the parse of a string
    (for an array or an object, of the string it converts to), the number
    of anything else, truncated to an integer. *)
Definition new_Date (v : value) : Date :=
  match v with
  | VDate d => d
  | VStr s => Date_parse s
  | VNull => TimeValue 0
  | VBool b => TimeValue (if b then 1 else 0)
  | VNum m e => TimeClip (Z.quot m (10 ^ (- e)))
  | VArr _ | VObj _ => Date_parse (ToPrimitive_string v)
  end.

(** [InternalizeJSONProperty]: the reviver is called on every property,
    the innermost first, with the property's name; an array element's
    name is its index. *)
Fixpoint internalize (reviver : jsstring → value → value)
    (name : jsstring) (val : value) {struct val} : value :=
  reviver name
    match val with
    | VArr items =>
        VArr ((fix elements (i : nat) (l : list value) : list value :=
                 match l with
                 | [] => []
                 | x :: l' =>
                     internalize reviver (stringify_natural (Z.of_nat i)) x
                     :: elements (S i) l'
                 end) O items)
    | VObj props =>
        VObj ((fix properties (l : list (jsstring * value)) :=
                 match l with
                 | [] => []
                 | (k, x) :: l' => (k, internalize reviver k x) :: properties l'
                 end) props)
    | _ => val
    end.

Definition JSON_parse (text : jsstring) (reviver : jsstring → value → value)
    : completion value :=
  match parse_text text with
  | Some v => Normal (internalize reviver [] v)
  | None => Throw SyntaxError
  end.

End Runtime.

End JS.

(** ** [src/App.js] *)

Module App.
Import JS.

(** An event record, as [handleSubmit] builds it. *)
Record Event := {
  id : Z;
  title : jsstring;
  description : jsstring;
  type : jsstring;
  start : Date;
  end_ : Date;
}.

(** The JavaScript object an event record stands for: the properties of
    the object literal in [handleSubmit], in its order. *)
Definition Event_value (ev : Event) : value :=
  VObj [ (js "id", VNum (id ev) 0); (js "title", VStr (title ev));
         (js "description", VStr (description ev));
         (js "type", VStr (type ev));
         (js "start", VDate (start ev)); (js "end", VDate (end_ ev)) ].

Definition events_value (events : list Event) : value :=
  VArr (Event_value <$> events).

(** [JSON.stringify(events)] on an array of event records. *)
Definition stringify_Event (ev : Event) : jsstring :=
  js "{" ++ quote (js "id") ++ js ":" ++ stringify_integer (id ev)
  ++ js "," ++ quote (js "title") ++ js ":" ++ quote (title ev)
  ++ js "," ++ quote (js "description") ++ js ":" ++ quote (description ev)
  ++ js "," ++ quote (js "type") ++ js ":" ++ quote (type ev)
  ++ js "," ++ quote (js "start") ++ js ":" ++ stringify_Date (start ev)
  ++ js "," ++ quote (js "end") ++ js ":" ++ stringify_Date (end_ ev)
  ++ js "}".

Definition JSON_stringify (events : list Event) : jsstring :=
  js "[" ++ join (js ",") (stringify_Event <$> events) ++ js "]".

(** *** What the text of the store is read as *)

(** The token a date is written as. *)
Definition Date_token (d : Date) : token :=
  match d with
  | InvalidDate => TNull
  | TimeValue t => TString (toISOString t)
  end.

(** The tokens a record is written as. *)
Definition Event_tokens (ev : Event) : list token :=
  [ TLBrace; TString (js "id"); TColon; TNumber (id ev) 0; TComma;
    TString (js "title"); TColon; TString (title ev); TComma;
    TString (js "description"); TColon; TString (description ev); TComma;
    TString (js "type"); TColon; TString (type ev); TComma;
    TString (js "start"); TColon; Date_token (start ev); TComma;
    TString (js "end"); TColon; Date_token (end_ ev); TRBrace ].

(** The tokens of the records, with a comma between two of them. *)
Fixpoint events_tokens (events : list Event) : list token :=
  match events with
  | [] => []
  | ev :: events' =>
      match events' with
      | [] => Event_tokens ev
      | _ :: _ => Event_tokens ev ++ TComma :: events_tokens events'
      end
  end.

(** What [JSON.parse] builds from the text of a date, and of a record. *)
Definition Date_parsed (d : Date) : value :=
  match d with
  | InvalidDate => VNull
  | TimeValue t => VStr (toISOString t)
  end.

Definition Event_parsed (ev : Event) : value :=
  VObj [ (js "id", VNum (id ev) 0); (js "title", VStr (title ev));
         (js "description", VStr (description ev));
         (js "type", VStr (type ev));
         (js "start", Date_parsed (start ev));
         (js "end", Date_parsed (end_ ev)) ].

(** A date that is not the invalid date; the time value of a [Date]
    object is within 8.64e15 ms of the epoch. *)
Definition valid_date (d : Date) : Prop :=
  ∃ t, d = TimeValue t ∧ - maxTime ≤ t ≤ maxTime.

Definition valid_dates (ev : Event) : Prop :=
  valid_date (start ev) ∧ valid_date (end_ ev).

(** Any [Date] object: the invalid date, or a time value in the range. *)
Definition is_Date (d : Date) : Prop :=
  match d with
  | InvalidDate => True
  | TimeValue t => - maxTime ≤ t ≤ maxTime
  end.

(** What a date is after saving and loading. *)
Definition reloaded_Date (d : Date) : Date :=
  match d with
  | InvalidDate => TimeValue 0
  | TimeValue t => TimeValue t
  end.

Definition reloaded (ev : Event) : Event :=
  {| id := id ev; title := title ev; description := description ev;
     type := type ev; start := reloaded_Date (start ev);
     end_ := reloaded_Date (end_ ev) |}.

(** The record a loaded object stands for, when it has the six
    properties of a record, in their order and of their types; and the
    records of a loaded array. *)
Definition Event_of_value (v : value) : option Event :=
  match v with
  | VObj [ (k1, VNum n 0); (k2, VStr t); (k3, VStr d); (k4, VStr ty);
           (k5, VDate s); (k6, VDate e) ] =>
      if bool_decide ([k1; k2; k3; k4; k5; k6]
                      = [js "id"; js "title"; js "description"; js "type";
                         js "start"; js "end"])
      then Some {| id := n; title := t; description := d; type := ty;
                   start := s; end_ := e |}
      else None
  | _ => None
  end.

Definition events_of_value (v : value) : option (list Event) :=
  match v with
  | VArr items => mapM Event_of_value items
  | _ => None
  end.

(** The form's data: [start] and [end] hold the empty string until a
    slot is selected or the input is edited, a [Date] after. *)
Module Form.
Record Data := {
  title : jsstring;
  description : jsstring;
  type : jsstring;
  start : value;
  end_ : value;
}.
End Form.

(** The component's state, one field per [useState]. *)
Record State := {
  events : list Event;
  darkMode : bool;
  view : jsstring;
  zooming : bool;
  searchQuery : jsstring;
  filters : gmap (list N) bool;
  showForm : bool;
  formData : Form.Data;
  selectedEvent : option Event;
}.

Definition setEvents (x : list Event) (s : State) : State :=
  {| events := x; darkMode := darkMode s; view := view s;
     zooming := zooming s; searchQuery := searchQuery s;
     filters := filters s; showForm := showForm s;
     formData := formData s; selectedEvent := selectedEvent s |}.

Definition setDarkMode (x : bool) (s : State) : State :=
  {| events := events s; darkMode := x; view := view s;
     zooming := zooming s; searchQuery := searchQuery s;
     filters := filters s; showForm := showForm s;
     formData := formData s; selectedEvent := selectedEvent s |}.

Definition setView (x : jsstring) (s : State) : State :=
  {| events := events s; darkMode := darkMode s; view := x;
     zooming := zooming s; searchQuery := searchQuery s;
     filters := filters s; showForm := showForm s;
     formData := formData s; selectedEvent := selectedEvent s |}.

Definition setZooming (x : bool) (s : State) : State :=
  {| events := events s; darkMode := darkMode s; view := view s;
     zooming := x; searchQuery := searchQuery s;
     filters := filters s; showForm := showForm s;
     formData := formData s; selectedEvent := selectedEvent s |}.

Definition setSearchQuery (x : jsstring) (s : State) : State :=
  {| events := events s; darkMode := darkMode s; view := view s;
     zooming := zooming s; searchQuery := x;
     filters := filters s; showForm := showForm s;
     formData := formData s; selectedEvent := selectedEvent s |}.

Definition setFilters (x : gmap (list N) bool) (s : State) : State :=
  {| events := events s; darkMode := darkMode s; view := view s;
     zooming := zooming s; searchQuery := searchQuery s;
     filters := x; showForm := showForm s;
     formData := formData s; selectedEvent := selectedEvent s |}.

Definition setShowForm (x : bool) (s : State) : State :=
  {| events := events s; darkMode := darkMode s; view := view s;
     zooming := zooming s; searchQuery := searchQuery s;
     filters := filters s; showForm := x;
     formData := formData s; selectedEvent := selectedEvent s |}.

Definition setFormData (x : Form.Data) (s : State) : State :=
  {| events := events s; darkMode := darkMode s; view := view s;
     zooming := zooming s; searchQuery := searchQuery s;
     filters := filters s; showForm := showForm s;
     formData := x; selectedEvent := selectedEvent s |}.

Definition setSelectedEvent (x : option Event) (s : State) : State :=
  {| events := events s; darkMode := darkMode s; view := view s;
     zooming := zooming s; searchQuery := searchQuery s;
     filters := filters s; showForm := showForm s;
     formData := formData s; selectedEvent := x |}.

(** [eventTypes]: each category's key with its label and its colour. *)
Definition eventTypes : list (jsstring * (jsstring * jsstring)) :=
  [ (js "reminder", (js "Reminder", js "#ff9800"));
    (js "plan", (js "Plan", js "#3f51b5"));
    (js "other", (js "Other", js "#4caf50")) ].

(** [Object.keys(eventTypes)] *)
Definition eventTypes_keys : list jsstring := eventTypes.*1.

(** A filter state: the object literal with the three flags. *)
Definition filters_of (reminder plan other : bool) : gmap (list N) bool :=
  <[js "reminder" := reminder]>
    (<[js "plan" := plan]> (<[js "other" := other]> ∅)).

(** The initial value of [filters]. *)
Definition initial_filters : gmap (list N) bool := filters_of true true true.

(** The initial value of [formData], also what the form is reset to. *)
Definition empty_form (start end_ : value) : Form.Data :=
  {| Form.title := []; Form.description := []; Form.type := js "reminder";
     Form.start := start; Form.end_ := end_ |}.

(** What [console.warn] printed. *)
Variant console_entry := Warn (message : jsstring) (err : error).

(** *** The required inputs of the form *)

(** The inputs of the title, the start and the end are [required]: the
    browser calls [handleSubmit] only when none of the three is empty.
    A date input shows [formatForInput] of the date the form holds, and
    an input of type [datetime-local] is empty unless its value is a
    date and a time: it is empty for the empty string the form starts
    with and for the [NaN] text of an invalid date. A [Date] that is not
    invalid holds a time value within 8.64e15 ms of the epoch. The
    browser may hold back more, a year that is not written with four
    digits for one; every form it submits passes this test. *)
Definition date_filled (v : value) : bool :=
  match v with
  | VDate (TimeValue t) => Z.abs t <=? maxTime
  | _ => false
  end.


(** *** The projection as it is specified *)

(** The flag of a type is the one the filter state holds for it. *)
Definition flag_is_true (filters : gmap (list N) bool) (type : jsstring)
    : Prop :=
  filters !! type = Some true.

(** The query is empty or made of white space only. *)
Definition blank (query : jsstring) : Prop :=
  Forall (λ c, is_white_space c = true) query.

(** Two texts are the same but for the case of the letters A to Z, and a
    title contains a query when a part of it is the query but for the
    case of the letters. *)
Definition fold_case (c : N) : N :=
  (if (97 <=? c) && (c <=? 122) then c - 32 else c)%N.

Definition same_ignoring_case (s t : jsstring) : Prop :=
  fold_case <$> s = fold_case <$> t.

Definition contains_ignoring_case (title query : jsstring) : Prop :=
  ∃ pre part post,
    title = pre ++ part ++ post ∧ same_ignoring_case part query.

Definition is_ascii (s : jsstring) : Prop := Forall (λ c, (c < 128)%N) s.

(** The records the projection is specified to keep: the flag of the
    type is true, and the query is blank or the title contains it, the
    case of the letters set aside. *)
Definition shown (filters : gmap (list N) bool) (query : jsstring)
    (ev : Event) : Prop :=
  flag_is_true filters (type ev)
  ∧ (blank query ∨ contains_ignoring_case (title ev) query).

Section WithEngine.
Context `{Engine}.

(** The reviver given to [JSON.parse]. *)
Definition reviver (key : jsstring) (value : JS.value) : JS.value :=
  if bool_decide (key = js "start") || bool_decide (key = js "end")
  then VDate (new_Date value)
  else value.

(** The initialiser of [events]: how it completes, and what it logged.
    [saved] is in a boolean position, so the empty string counts as no
    entry. *)
Definition events_initializer (localStorage : gmap (list N) (list N))
    : completion value * list console_entry :=
  match localStorage !! js "calendarEvents" with
  | Some saved =>
      if string_truthy saved then
        match JSON_parse saved reviver with
        | Normal v => (Normal v, [])
        | Throw err =>
            (Normal (VArr []), [Warn (js "Failed to parse saved events") err])
        end
      else (Normal (VArr []), [])
  | None => (Normal (VArr []), [])
  end.

(** The effect that persists [events] when they change. *)
Definition persist_events (events : list Event)
    (localStorage : gmap (list N) (list N)) : gmap (list N) (list N) :=
  <[js "calendarEvents" := JSON_stringify events]> localStorage.

(** The state of the first render. *)
Definition initial_state (events : list Event) (darkMode : bool) : State :=
  {| events := events; darkMode := darkMode; view := js "month";
     zooming := false; searchQuery := []; filters := initial_filters;
     showForm := false; formData := empty_form (VStr []) (VStr []);
     selectedEvent := None |}.

(** [filteredEvents]: the callback given to [events.filter], and the
    events the calendar shows. *)
Definition visible (filters : gmap (list N) bool) (searchQuery : jsstring)
    (ev : Event) : bool :=
  if negb (get_truthy filters (type ev)) then false
  else if string_truthy (trim searchQuery)
          && negb (includes (toLowerCase (title ev)) (toLowerCase searchQuery))
       then false
  else true.

Definition filteredEvents (events : list Event) (filters : gmap (list N) bool)
    (searchQuery : jsstring) : list Event :=
  List.filter (visible filters searchQuery) events.

(** What [includes] decides in the callback: the lower-cased query
    occurs in the lower-cased title. *)
Definition title_matches (ev : Event) (query : jsstring) : Prop :=
  ∃ pre post, toLowerCase (title ev) = pre ++ toLowerCase query ++ post.

(** [handleViewChange]: the state after the call, and the timeouts it set,
    each with its delay and the view its callback holds. *)
Definition handleViewChange (newView : jsstring) (s : State)
    : State * list (Z * jsstring) :=
  if bool_decide (view s = newView) then (s, [])
  else (setZooming true s, [(150, newView)]).

(** The callback [handleViewChange] gives to [setTimeout]. *)
Definition view_timeout (newView : jsstring) (s : State) : State :=
  setZooming false (setView newView s).

Definition handleSelectEvent (event : Event) (s : State) : State :=
  setSelectedEvent (Some event) s.

Definition handleSelectSlot (start end_ : Date) (s : State) : State :=
  setShowForm true (setFormData (empty_form (VDate start) (VDate end_)) s).

(** [handleSubmit]; [now] is what [Date.now()] returns. *)
Definition handleSubmit (now : Z) (s : State) : State :=
  let newEvent :=
    {| id := now;
       title := Form.title (formData s);
       description := Form.description (formData s);
       type := Form.type (formData s);
       start := new_Date (Form.start (formData s));
       end_ := new_Date (Form.end_ (formData s)) |} in
  setShowForm false (setEvents (events s ++ [newEvent]) s).


(** The store after a save and a load: the value the initialiser of
    [events] gives when the storage holds what the effect wrote. *)
Definition reload (events : list Event)
    (localStorage : gmap (list N) (list N))
    : completion value * list console_entry :=
  events_initializer (persist_events events localStorage).

Definition toggleFilter (type : jsstring) (s : State) : State :=
  setFilters (<[type := negb (get_truthy (filters s) type)]> (filters s)) s.

Definition removeEvent (id' : Z) (s : State) : State :=
  setSelectedEvent None
    (setEvents (List.filter (λ ev, negb (id ev =? id')) (events s)) s).

(** The ids in the store, and how many of its records carry [id']. *)
Definition ids (events : list Event) : list Z := id <$> events.

Definition count_id (id' : Z) (events : list Event) : nat :=
  length (List.filter (λ ev, id ev =? id') events).

(** What the user and the timers can do to the component. *)
Variant action :=
  | AddEventButton
  | ToggleDarkMode
  | ViewSelect (newView : jsstring)
  | SearchInput (query : jsstring)
  | FilterCheckbox (type : jsstring)
  | SelectSlot (start end_ : Date)
  | SelectEvent (event : Event)
  | FormInput (data : Form.Data)
  | FormSubmit (now : Z)
  | FormCancel
  | DetailsDelete (id : Z)
  | DetailsClose
  | ViewTimeout (newView : jsstring).

Definition dispatch (a : action) (s : State) : State :=
  match a with
  | AddEventButton => setShowForm true s
  | ToggleDarkMode => setDarkMode (negb (darkMode s)) s
  | ViewSelect newView => (handleViewChange newView s).1
  | SearchInput query => setSearchQuery query s
  | FilterCheckbox type => toggleFilter type s
  | SelectSlot start end_ => handleSelectSlot start end_ s
  | SelectEvent event => handleSelectEvent event s
  | FormInput data => setFormData data s
  | FormSubmit now => handleSubmit now s
  | FormCancel => setShowForm false s
  | DetailsDelete id => removeEvent id s
  | DetailsClose => setSelectedEvent None s
  | ViewTimeout newView => view_timeout newView s
  end.

End WithEngine.

(** *** Data to run the model on *)

(** An engine with the case mapping of the ASCII letters, whose
    [Date.parse] reads nothing beyond the ISO format, and which converts
    every object to the empty string. *)
Definition ascii_engine : Engine :=
  {| toLowerCase := toLowerCase_ascii;
     Date_parse_other := λ _, InvalidDate;
     ToPrimitive_string := λ _, [] |}.

Definition dentist : Event :=
  {| id := 1; title := js "Dentist"; description := [];
     type := js "reminder";
     start := TimeValue 1700000000000; end_ := TimeValue 1700003600000 |}.

Definition trip : Event :=
  {| id := 2; title := js "Trip"; description := js "by train";
     type := js "plan";
     start := TimeValue 1700100000000; end_ := TimeValue 1700200000000 |}.

(** A record of a category the component does not declare. *)
Definition holiday : Event :=
  {| id := 3; title := js "Bank holiday"; description := [];
     type := js "holiday";
     start := TimeValue 1700300000000; end_ := TimeValue 1700400000000 |}.

(** A record whose category is the name of a property that every object
    inherits. *)
Definition inherited : Event :=
  {| id := 4; title := js "Review"; description := [];
     type := js "constructor";
     start := TimeValue 1700500000000; end_ := TimeValue 1700600000000 |}.



(** A second record with the id of [dentist]. *)
Definition twin : Event :=
  {| id := 1; title := js "Dentist again"; description := [];
     type := js "reminder";
     start := TimeValue 1700700000000; end_ := TimeValue 1700800000000 |}.

(** A record whose end is the invalid date. *)
Definition open_end : Event :=
  {| id := 9; title := js "Open end"; description := [];
     type := js "other";
     start := TimeValue 1700000000000; end_ := InvalidDate |}.

(** *** The component with its pending timeouts *)

(** The component's state, the clock in milliseconds, and the timeouts
    set and not yet run: when each is due and the view its callback
    holds. *)
Record Runtime := {
  component : State;
  clock : Z;
  timers : list (Z * jsstring);
}.

(** A call of [handleViewChange] at the current time. *)
Definition call_handleViewChange (newView : jsstring) (r : Runtime) : Runtime :=
  let '(s, timeouts) := handleViewChange newView (component r) in
  {| component := s; clock := clock r;
     timers := timers r ++ ((λ t, (clock r + t.1, t.2)) <$> timeouts) |}.

(** Time passes. *)
Definition elapse (dt : Z) (r : Runtime) : Runtime :=
  {| component := component r; clock := clock r + dt; timers := timers r |}.

(** The [i]-th pending timeout runs, if it is due. *)
Definition run_timeout (i : nat) (r : Runtime) : option Runtime :=
  match timers r !! i with
  | Some (due, newView) =>
      if due <=? clock r then
        Some {| component := view_timeout newView (component r); clock := clock r;
                timers := delete i (timers r) |}
      else None
  | None => None
  end.

(** What happens without the user: time passes, or a due timeout runs. *)
Inductive idle_step : Runtime → Runtime → Prop :=
  | idle_elapse r dt : 0 ≤ dt → idle_step r (elapse dt r)
  | idle_timeout r i r' : run_timeout i r = Some r' → idle_step r r'.

(** The component at rest at time [now]: no timeout is pending. *)
Definition at_rest (s : State) (now : Z) : Runtime :=
  {| component := s; clock := now; timers := [] |}.

(** What holds from the call of [handleViewChange] on: the timeout is
    pending, the view is the old one and the flag is set; or the timeout
    has run, not before it was due, the view is the new one and the flag
    is clear. *)
Definition in_transition (s : State) (now : Z) (newView : jsstring)
    (r : Runtime) : Prop :=
  now ≤ clock r
  ∧ (component r = setZooming true s ∧ timers r = [(now + 150, newView)]
     ∨ component r = setZooming false (setView newView s) ∧ timers r = []
       ∧ now + 150 ≤ clock r).

(** *** The array of events in memory *)

(** Objects are held by reference: an event record, an array of
    references, or the object of the filter flags. Evaluation reads and
    writes the memory, and fails where the engine throws. *)
Variant object :=
  | ORecord (ev : Event)
  | OArray (items : list positive)
  | OFlags (flags : gmap (list N) bool).

Definition eval (A : Type) : Type :=
  gmap positive object → option (A * gmap positive object).

Definition ret {A} (a : A) : eval A := λ h, Some (a, h).

Definition bind {A B} (m : eval A) (k : A → eval B) : eval B :=
  λ h, match m h with
       | Some (a, h') => k a h'
       | None => None
       end.

(** [ev.type], [ev.title] and [filters[k]] in a boolean position: each
    reads one object and leaves the memory as it is. *)
Definition get_type (ev : positive) : eval jsstring :=
  λ h, match h !! ev with
       | Some (ORecord r) => Some (type r, h)
       | _ => None
       end.

Definition get_title (ev : positive) : eval jsstring :=
  λ h, match h !! ev with
       | Some (ORecord r) => Some (title r, h)
       | _ => None
       end.

Definition get_flag (filters : positive) (k : jsstring) : eval bool :=
  λ h, match h !! filters with
       | Some (OFlags flags) => Some (get_truthy flags k, h)
       | _ => None
       end.

(** [ev.title = t]: an assignment, which the callback of
    [filteredEvents] does not contain. *)
Definition set_title (ev : positive) (t : jsstring) : eval unit :=
  λ h, match h !! ev with
       | Some (ORecord r) =>
           Some (tt, <[ev := ORecord {| id := id r; title := t;
                                        description := description r;
                                        type := type r; start := start r;
                                        end_ := end_ r |}]> h)
       | _ => None
       end.

(** [CreateDataProperty(A, to, kValue)] at the end of the array [A]. *)
Definition push (A kValue : positive) : eval unit :=
  λ h, match h !! A with
       | Some (OArray items) => Some (tt, <[A := OArray (items ++ [kValue])]> h)
       | _ => None
       end.

(** The loop of [Array.prototype.filter] from index [k], with [n]
    indices to go: the element is read from the array as it is then, the
    callback is called on it, in the memory the calls before have left,
    and the element is appended to [A] when the callback selects it. *)
Fixpoint filter_loop (callback : positive → eval bool) (O A : positive)
    (k n : nat) : eval unit :=
  match n with
  | O => ret tt
  | S n' =>
      λ h, match h !! O with
           | Some (OArray items) =>
               match items !! k with
               | Some kValue =>
                   bind (callback kValue) (λ selected,
                   bind (if selected then push A kValue else ret tt) (λ _,
                   filter_loop callback O A (S k) n')) h
               | None => filter_loop callback O A (S k) n' h
               end
           | _ => None
           end
  end.

(** [O.filter(callback)]: the length is read, a new array is created,
    and the loop fills it. *)
Definition Array_filter (callback : positive → eval bool) (O : positive)
    : eval positive :=
  λ h, match h !! O with
       | Some (OArray items) =>
           let A := fresh (dom h) in
           bind (filter_loop callback O A 0 (length items))
                (λ _, ret A) (<[A := OArray []]> h)
       | _ => None
       end.

Section Memory.
Context `{Engine}.

(** The callback of [filteredEvents], on a reference to a record;
    [filters] is the reference the closure holds, [searchQuery] a
    string. The title is read only when the trimmed query is not
    empty. *)
Definition callback (filters : positive) (searchQuery : jsstring)
    (ev : positive) : eval bool :=
  bind (get_type ev) (λ type,
  bind (get_flag filters type) (λ flag,
  if negb flag then ret false
  else if string_truthy (trim searchQuery)
  then bind (get_title ev) (λ title,
       if negb (includes (toLowerCase title) (toLowerCase searchQuery))
       then ret false
       else ret true)
  else ret true)).

(** [events.filter((ev) => ...)] *)
Definition filteredEvents_in_memory (events filters : positive)
    (searchQuery : jsstring) : eval positive :=
  Array_filter (callback filters searchQuery) events.

End Memory.

(** A callback that writes: it clears the title and selects the
    record. *)
Definition clearing_callback (ev : positive) : eval bool :=
  bind (set_title ev []) (λ _, ret true).

Definition read_record (h : gmap positive object) (l : positive)
    : option Event :=
  match h !! l with
  | Some (ORecord ev) => Some ev
  | _ => None
  end.

(** The records an array of references holds. *)
Definition records (h : gmap positive object) (a : positive)
    : option (list Event) :=
  match h !! a with
  | Some (OArray items) => mapM (read_record h) items
  | _ => None
  end.

(** A store with [dentist], [trip] and [holiday] at 1, 2 and 3, the
    array of the three at 4 and the initial filter flags at 5. *)
Definition three_events : gmap positive object :=
  <[1%positive := ORecord dentist]>
    (<[2%positive := ORecord trip]>
       (<[3%positive := ORecord holiday]>
          (<[4%positive := OArray [1; 2; 3]%positive]>
             (<[5%positive := OFlags initial_filters]> ∅)))).

End App.

(** ** More of [src/App.js]: what is rendered, and the theme *)

Module Render.
Import JS App.

(** [s.padStart(2, "0")] *)
Definition padStart2 (s : jsstring) : jsstring :=
  replicate (2 - length s) 48%N ++ s.

(** [pad] of [formatForInput], on an integer:
    [n.toString().padStart(2, "0")]. *)
Definition pad (n : Z) : jsstring := padStart2 (stringify_integer n).

Section LocalTime.

(** The offset of local time from UTC at a time value, in milliseconds:
    the host's time zone, with its daylight saving rules. *)
Variable LocalTZA : Z → Z.

Definition LocalTime (t : Z) : Z := t + LocalTZA t.

(** [formatForInput]. [None] stands for the [TypeError] of calling
    [getFullYear] on a value that is not a [Date]; only the empty string,
    [null], [false] and zero are falsy. The getters of an invalid date
    give NaN, which prints as [NaN], three code units that [padStart]
    leaves as they are. *)
Definition formatForInput (date : value) : option jsstring :=
  match date with
  | VNull => Some []
  | VBool b => if b then None else Some []
  | VNum m _ => if m =? 0 then Some [] else None
  | VStr s => if string_truthy s then None else Some []
  | VArr _ | VObj _ => None
  | VDate InvalidDate => Some (js "NaN-NaN-NaNTNaN:NaN")
  | VDate (TimeValue t) =>
      let yyyy := stringify_integer (YearFromTime (LocalTime t)) in
      let mm := pad (MonthFromTime (LocalTime t) + 1) in
      let dd := pad (DateFromTime (LocalTime t)) in
      let hh := pad (HourFromTime (LocalTime t)) in
      let mi := pad (MinFromTime (LocalTime t)) in
      Some (yyyy ++ js "-" ++ mm ++ js "-" ++ dd ++ js "T" ++ hh
            ++ js ":" ++ mi)
  end.

End LocalTime.

(** [eventTypes[type]]: the label and the colour of a declared key. A
    name inherited from [Object.prototype] gives a function or an
    object, which has neither a [color] nor a [label]; it is read like a
    key that is not there. *)
Definition eventTypes_get (type : jsstring) : option (jsstring * jsstring) :=
  (list_to_map eventTypes : gmap (list N) (jsstring * jsstring)) !! type.

(** The style object [eventStyleGetter] returns; [opacity] is the
    decimal 0.8, eight tenths. *)
Record Style := {
  backgroundColor : jsstring;
  borderRadius : jsstring;
  opacity : Z * Z;
  color : jsstring;
  border : jsstring;
  paddingLeft : jsstring;
}.

(** [a || b] on strings that may be missing. *)
Definition or_else (a : option jsstring) (b : jsstring) : jsstring :=
  match a with
  | Some s => if string_truthy s then s else b
  | None => b
  end.

(** [eventStyleGetter] *)
Definition eventStyleGetter (event : Event) : Style :=
  {| backgroundColor :=
       or_else (snd <$> eventTypes_get (type event)) (js "#2196f3");
     borderRadius := js "4px";
     opacity := (8, -1);
     color := js "#fff";
     border := js "none";
     paddingLeft := js "4px" |}.

(** The type shown in the details of the selected event:
    [eventTypes[selectedEvent.type]?.label || selectedEvent.type]. *)
Definition type_label (selectedEvent : Event) : jsstring :=
  or_else (fst <$> eventTypes_get (type selectedEvent)) (type selectedEvent).

End Render.

Module Theme.
Import JS App.

(** [JSON.parse(text)], with no reviver. *)
Definition JSON_parse_plain (text : jsstring) : completion value :=
  match parse_text text with
  | Some v => Normal v
  | None => Throw SyntaxError
  end.

(** [JSON.stringify] on a boolean. *)
Definition stringify_bool (b : bool) : jsstring :=
  if b then js "true" else js "false".

(** The initialiser of [darkMode]: [JSON.parse] is called with nothing
    around it to catch what it throws. *)
Definition darkMode_initializer (localStorage : gmap (list N) (list N))
    : completion value :=
  match localStorage !! js "calendarDarkMode" with
  | Some saved =>
      if string_truthy saved then JSON_parse_plain saved
      else Normal (VBool false)
  | None => Normal (VBool false)
  end.

(** The effect run when [darkMode] changes: it writes the entry, and
    [classList.toggle("dark", darkMode)] adds or removes the class of
    the document's body. *)
Definition darkMode_effect (darkMode : bool)
    (world : gmap (list N) (list N) * gset (list N))
    : gmap (list N) (list N) * gset (list N) :=
  (<[js "calendarDarkMode" := stringify_bool darkMode]> world.1,
   if darkMode then {[js "dark"]} ∪ world.2 else world.2 ∖ {[js "dark"]}).

End Theme.

(** ** Runs of the component *)

Module Runs.
Import JS App.

(** An action the page offers: a filter checkbox exists for the declared
    types only, one for each key of [eventTypes]. *)
Definition offered (a : action) : Prop :=
  match a with
  | FilterCheckbox type => type ∈ eventTypes_keys
  | _ => True
  end.

Section WithEngine.
Context `{Engine}.

(** The state after a sequence of actions. *)
Definition run (s : State) (actions : list action) : State :=
  foldl (λ s a, dispatch a s) s actions.

(** A step of the component with its timeouts: a call of
    [handleViewChange], any other action of the user, time passing, or a
    due timeout running. *)
Inductive step : Runtime → Runtime → Prop :=
  | step_view r newView : step r (call_handleViewChange newView r)
  | step_action r a :
      (∀ newView, a ≠ ViewSelect newView) →
      (∀ newView, a ≠ ViewTimeout newView) →
      step r {| component := dispatch a (component r); clock := clock r;
                timers := timers r |}
  | step_idle r r' : idle_step r r' → step r r'.

(** What a save and a load make of a record, whatever its dates are. *)
Definition revived (ev : Event) : Event :=
  {| id := id ev; title := title ev; description := description ev;
     type := type ev;
     start := new_Date (Date_parsed (start ev));
     end_ := new_Date (Date_parsed (end_ ev)) |}.

(** The inputs of the form, each with the [e.target.value] of a change. *)
Variant field :=
  | TitleField (value : jsstring)
  | DescriptionField (value : jsstring)
  | TypeField (value : jsstring)
  | StartField (value : jsstring)
  | EndField (value : jsstring).

(** The [onChange] handlers of the form: each copies [formData] and
    replaces one property; the two date inputs store
    [new Date(e.target.value)]. *)
Definition onChange (f : field) (formData : Form.Data) : Form.Data :=
  match f with
  | TitleField value =>
      {| Form.title := value; Form.description := Form.description formData;
         Form.type := Form.type formData; Form.start := Form.start formData;
         Form.end_ := Form.end_ formData |}
  | DescriptionField value =>
      {| Form.title := Form.title formData; Form.description := value;
         Form.type := Form.type formData; Form.start := Form.start formData;
         Form.end_ := Form.end_ formData |}
  | TypeField value =>
      {| Form.title := Form.title formData;
         Form.description := Form.description formData;
         Form.type := value; Form.start := Form.start formData;
         Form.end_ := Form.end_ formData |}
  | StartField value =>
      {| Form.title := Form.title formData;
         Form.description := Form.description formData;
         Form.type := Form.type formData;
         Form.start := VDate (new_Date (VStr value));
         Form.end_ := Form.end_ formData |}
  | EndField value =>
      {| Form.title := Form.title formData;
         Form.description := Form.description formData;
         Form.type := Form.type formData; Form.start := Form.start formData;
         Form.end_ := VDate (new_Date (VStr value)) |}
  end.

(** A change the form can report: the select of the type has one option
    for each key of [eventTypes]. *)
Definition selectable (f : field) : Prop :=
  match f with
  | TypeField value => value ∈ eventTypes_keys
  | _ => True
  end.

(** What the page as rendered in a state lets happen: the filter
    checkboxes are those of the declared types; the calendar is given
    [filteredEvents] and reports a click on one of them; the form is
    there when [showForm] holds, and its inputs call their [onChange];
    the details are there when an event is selected, and their Delete
    button calls [removeEvent] with the id of that event. *)
Definition enabled (s : State) (a : action) : Prop :=
  match a with
  | FilterCheckbox type => type ∈ eventTypes_keys
  | SelectEvent event =>
      event ∈ filteredEvents (events s) (filters s) (searchQuery s)
  | FormInput data =>
      showForm s = true
      ∧ ∃ f, selectable f ∧ data = onChange f (formData s)
  | FormSubmit _ | FormCancel => showForm s = true
  | DetailsDelete id' => ∃ ev, selectedEvent s = Some ev ∧ id' = id ev
  | DetailsClose => is_Some (selectedEvent s)
  | _ => True
  end.

Definition ui_step (s s' : State) : Prop :=
  ∃ a, enabled s a ∧ s' = dispatch a s.

End WithEngine.

End Runs.

(* ===================================================================== *)
(** * Part II: lemmas and theorems                                         *)
(* ===================================================================== *)

Import JS App Render Theme Runs.

Lemma startsWith_spec s p :
  startsWith s p = true ↔ ∃ post, s = p ++ post.
Proof.
  revert s. induction p as [|a p IH]; intros s; simpl.
  - split; [intros _; by exists s | done].
  - destruct s as [|b s]; simpl.
    + split; [done | intros [post Hpost]; discriminate].
    + rewrite andb_true_iff, N.eqb_eq, IH. split.
      * intros [-> [post ->]]. eauto.
      * intros [post Hpost]. injection Hpost as -> ->. eauto.
Qed.

(** ** Strings *)

Lemma includes_spec s p :
  includes s p = true ↔ ∃ pre post, s = pre ++ p ++ post.
Proof.
  induction s as [|c s IH]; simpl.
  - rewrite orb_false_r, startsWith_spec. split.
    + intros [post ->]. by exists [], post.
    + intros [pre [post Heq]]. destruct pre; [by exists post |done].
  - rewrite orb_true_iff, startsWith_spec, IH. split.
    + intros [[post ->] | [pre [post ->]]].
      * by exists [], post.
      * by exists (c :: pre), post.
    + intros [[|c' pre] [post Heq]].
      * left. by exists post.
      * right. injection Heq as -> ->. by exists pre, post.
Qed.

Lemma trimStart_nil s :
  trimStart s = [] ↔ Forall (λ c, is_white_space c = true) s.
Proof.
  induction s as [|c s IH]; simpl.
  - split; [constructor | done].
  - destruct (is_white_space c) eqn:Hc.
    + rewrite IH. split; [by constructor | by inversion 1].
    + split; [done | inversion 1; congruence].
Qed.

Lemma trimStart_head s :
  trimStart s = [] ∨ ∃ c r, trimStart s = c :: r ∧ is_white_space c = false.
Proof.
  induction s as [|c s IH]; simpl; [by left |].
  destruct (is_white_space c) eqn:Hc; [done | right; eauto].
Qed.

(** [trim] leaves nothing exactly when every code unit is white space. *)
Lemma trim_falsy s :
  string_truthy (trim s) = false ↔ Forall (λ c, is_white_space c = true) s.
Proof.
  assert (Hnil : ∀ l : jsstring, string_truthy l = false ↔ l = [])
    by (intros []; simpl; split; congruence).
  rewrite Hnil. unfold trim, trimEnd.
  rewrite <- (reverse_involutive []), (inj_iff reverse), reverse_nil.
  rewrite trimStart_nil, Forall_reverse.
  destruct (trimStart_head s) as [Hs | (c & r & Hs & Hc)].
  - rewrite Hs. apply trimStart_nil in Hs. by split.
  - rewrite Hs. split.
    + inversion 1; congruence.
    + intros Hall. apply trimStart_nil in Hall. congruence.
Qed.

(** ** The projection *)

Lemma elem_of_List_filter {A} (f : A → bool) (l : list A) (x : A) :
  x ∈ List.filter f l ↔ x ∈ l ∧ f x = true.
Proof.
  rewrite !list_elem_of_In. apply filter_In.
Qed.

Lemma List_filter_sublist {A} (f : A → bool) (l : list A) :
  List.filter f l `sublist_of` l.
Proof.
  induction l as [|x l IH]; simpl; [constructor |].
  destruct (f x); by constructor.
Qed.

Lemma length_List_filter_all {A} (f : A → bool) (l : list A) :
  (∀ x, x ∈ l → f x = true) → List.filter f l = l.
Proof.
  induction l as [|x l IH]; simpl; intros Hall; [done |].
  rewrite (Hall x) by constructor. f_equal. apply IH.
  intros y Hy. apply Hall. by constructor.
Qed.

(** What [filters[type]] is read as: the own flag, or the function or
    object inherited under the name. *)
Lemma get_truthy_true (o : gmap (list N) bool) k :
  get_truthy o k = true
  ↔ flag_is_true o k ∨ o !! k = None ∧ k ∈ Object_prototype_keys.
Proof.
  unfold get_truthy, flag_is_true. destruct (o !! k) as [b|].
  - split; [intros ->; by left | intros [[= ->] | [? _]]; done].
  - rewrite bool_decide_eq_true. split; [by right | by intros [? | [_ ?]]].
Qed.

Lemma get_truthy_own (o : gmap (list N) bool) k b :
  o !! k = Some b → get_truthy o k = b.
Proof. unfold get_truthy. by intros ->. Qed.

(** Lower-casing and upper-casing the letters A to Z identify the same
    code units. *)
Lemma fold_case_lower a b :
  fold_case a = fold_case b
  ↔ toLowerCase_ascii [a] = toLowerCase_ascii [b].
Proof.
  unfold fold_case, toLowerCase_ascii. simpl.
  destruct (N.leb_spec 97 a), (N.leb_spec a 122), (N.leb_spec 97 b),
    (N.leb_spec b 122), (N.leb_spec 65 a), (N.leb_spec a 90),
    (N.leb_spec 65 b), (N.leb_spec b 90); simpl;
    split; intros Heq; try injection Heq as Heq; try f_equal; lia.
Qed.

Lemma same_ignoring_case_lower s t :
  same_ignoring_case s t ↔ toLowerCase_ascii s = toLowerCase_ascii t.
Proof.
  unfold same_ignoring_case. revert t.
  induction s as [|a s IH]; intros [|b t]; try done.
  specialize (IH t). pose proof (fold_case_lower a b) as Hab.
  unfold toLowerCase_ascii in *. rewrite !fmap_cons.
  rewrite !fmap_cons, !fmap_nil in Hab.
  split; intros [= Hhead Htail]; f_equal.
  - apply Hab in Hhead. by injection Hhead.
  - by apply IH.
  - apply Hab. by f_equal.
  - by apply IH.
Qed.

Lemma contains_ignoring_case_lower title query :
  contains_ignoring_case title query
  ↔ ∃ pre post,
      toLowerCase_ascii title = pre ++ toLowerCase_ascii query ++ post.
Proof.
  unfold contains_ignoring_case. split.
  - intros (pre & part & post & -> & Hsame).
    apply same_ignoring_case_lower in Hsame.
    exists (toLowerCase_ascii pre), (toLowerCase_ascii post).
    unfold toLowerCase_ascii in *. by rewrite !fmap_app, Hsame.
  - intros (pre & post & Heq). unfold toLowerCase_ascii in Heq.
    apply fmap_app_inv in Heq as (pre' & rest & _ & Hrest & ->).
    symmetry in Hrest.
    apply fmap_app_inv in Hrest as (part & post' & Hpart & _ & ->).
    exists pre', part, post'. split; [done |].
    by apply same_ignoring_case_lower.
Qed.

Section Projection.
Context `{Engine}.

Lemma visible_true filters query ev :
  visible filters query ev = true
  ↔ get_truthy filters (type ev) = true
    ∧ (blank query ∨ title_matches ev query).
Proof.
  unfold visible, blank, title_matches.
  rewrite <- trim_falsy, <- includes_spec.
  destruct (get_truthy filters (type ev)); simpl; [| intuition congruence].
  destruct (string_truthy (trim query)); simpl;
    destruct (includes _ _); simpl; intuition congruence.
Qed.

Lemma visible_false filters query ev :
  visible filters query ev = false
  ↔ ¬ (get_truthy filters (type ev) = true
       ∧ (blank query ∨ title_matches ev query)).
Proof.
  rewrite <- visible_true.
  destruct (visible filters query ev); intuition congruence.
Qed.

Lemma elem_of_filteredEvents events filters query ev :
  ev ∈ filteredEvents events filters query
  ↔ ev ∈ events
    ∧ get_truthy filters (type ev) = true
    ∧ (blank query ∨ title_matches ev query).
Proof.
  unfold filteredEvents. by rewrite elem_of_List_filter, visible_true.
Qed.

(** On ASCII text, where [toLowerCase] changes the letters A to Z and
    nothing else, the comparison of the callback is containment with
    the case of the letters set aside. *)
Lemma title_matches_ignoring_case ev query :
  (∀ s, is_ascii s → toLowerCase s = toLowerCase_ascii s) →
  is_ascii (title ev) → is_ascii query →
  title_matches ev query ↔ contains_ignoring_case (title ev) query.
Proof.
  intros Hengine Htitle Hquery. unfold title_matches.
  rewrite !Hengine by done. symmetry. apply contains_ignoring_case_lower.
Qed.

(** C1, as the code has it. The projection keeps a record exactly when
    its type counts as switched on and the query is blank or occurs in
    the title, both lower-cased. A type counts as switched on when the
    flag the filter state holds for it is true, and also when the filter
    state holds no flag for it and it is the name of a property
    inherited from [Object.prototype]. So when no record has such a
    type, and the text is ASCII, where lower-casing changes the letters
    A to Z only, the projection keeps exactly the records the
    specification names: the flag of the type is true, and the query is
    blank or the title contains it, the case of the letters set aside.
    The result is a subsequence of the events, in their order, computed
    record by record, each record kept as it is or left out; a record
    whose flag is false is never in it, and with a query that is not
    blank neither is a record whose title does not contain the query. *)
Theorem filteredEvents_keeps_exactly_the_shown
    (events : list Event) (filters : gmap (list N) bool) (query : jsstring) :
  (∀ ev, ev ∈ filteredEvents events filters query
         ↔ ev ∈ events
           ∧ (flag_is_true filters (type ev)
              ∨ filters !! type ev = None ∧ type ev ∈ Object_prototype_keys)
           ∧ (blank query ∨ title_matches ev query))
  ∧ ((∀ s, is_ascii s → toLowerCase s = toLowerCase_ascii s) →
     is_ascii query →
     (∀ ev, ev ∈ events →
            is_ascii (title ev)
            ∧ (filters !! type ev = None → type ev ∉ Object_prototype_keys)) →
     ∀ ev, ev ∈ filteredEvents events filters query
           ↔ ev ∈ events ∧ shown filters query ev)
  ∧ filteredEvents events filters query `sublist_of` events
  ∧ (∀ before after,
       events = before ++ after →
       filteredEvents events filters query
       = filteredEvents before filters query
         ++ filteredEvents after filters query)
  ∧ (∀ ev, filteredEvents [ev] filters query = [ev]
           ∨ filteredEvents [ev] filters query = [])
  ∧ (∀ ev, filters !! type ev = Some false →
           ev ∉ filteredEvents events filters query)
  ∧ (∀ ev, ev ∈ filteredEvents events filters query →
           ¬ blank query → title_matches ev query).
Proof.
  assert (Hmem : ∀ ev, ev ∈ filteredEvents events filters query
            ↔ ev ∈ events
              ∧ (flag_is_true filters (type ev)
                 ∨ filters !! type ev = None
                   ∧ type ev ∈ Object_prototype_keys)
              ∧ (blank query ∨ title_matches ev query)).
  { intros ev. by rewrite elem_of_filteredEvents, get_truthy_true. }
  split_and!.
  - exact Hmem.
  - intros Hengine Hquery Hevents ev. rewrite Hmem. unfold shown.
    split.
    + intros (Hin & Hflag & Htitle).
      destruct (Hevents ev Hin) as [Hascii Hown].
      split_and!; [done | |].
      * destruct Hflag as [Hflag | [Hnone Hproto]]; [done |].
        by destruct (Hown Hnone).
      * destruct Htitle as [Hblank | Htitle]; [by left | right].
        by apply title_matches_ignoring_case.
    + intros (Hin & Hflag & Htitle).
      destruct (Hevents ev Hin) as [Hascii _].
      split_and!; [done | by left |].
      destruct Htitle as [Hblank | Htitle]; [by left | right].
      by apply title_matches_ignoring_case.
  - apply List_filter_sublist.
  - intros before after ->. apply List.filter_app.
  - intros ev. unfold filteredEvents. simpl.
    destruct (visible filters query ev); [by left | by right].
  - intros ev Hfalse [_ [Hflag _]]%elem_of_filteredEvents.
    by rewrite (get_truthy_own _ _ _ Hfalse) in Hflag.
  - intros ev [_ [_ [Hblank | Hin]]]%elem_of_filteredEvents Hquery;
      [contradiction | exact Hin].
Qed.

End Projection.

(** The store [dentist; trip] with the initial filter state and the
    query TRIP: the text is ASCII, each type has a flag, and the
    projection keeps [trip], whose title contains the query but for the
    case of the letters. *)
Lemma filteredEvents_keeps_exactly_the_shown_witness :
  is_ascii (js "TRIP")
  ∧ (trip ∈ @filteredEvents ascii_engine [dentist; trip] initial_filters
              (js "TRIP")
     ↔ trip ∈ [dentist; trip] ∧ shown initial_filters (js "TRIP") trip)
  ∧ (dentist ∈ @filteredEvents ascii_engine [dentist; trip] initial_filters
                 (js "TRIP")
     ↔ dentist ∈ [dentist; trip] ∧ shown initial_filters (js "TRIP") dentist)
  ∧ @filteredEvents ascii_engine [dentist; trip] initial_filters (js "TRIP")
    = [trip].
Proof.
  assert (Hengine : ∀ s, is_ascii s →
            @toLowerCase ascii_engine s = toLowerCase_ascii s) by done.
  assert (Hquery : is_ascii (js "TRIP")) by (by repeat constructor).
  assert (Hevents : ∀ ev, ev ∈ [dentist; trip] →
            is_ascii (title ev)
            ∧ (initial_filters !! type ev = None →
               type ev ∉ Object_prototype_keys)).
  { intros ev Hev. rewrite !elem_of_cons, elem_of_nil in Hev.
    destruct Hev as [-> | [-> | []]];
      (split; [by repeat constructor | done]). }
  pose proof (proj1 (proj2 (@filteredEvents_keeps_exactly_the_shown
                              ascii_engine [dentist; trip] initial_filters
                              (js "TRIP")))
                Hengine Hquery Hevents) as Hshown.
  split_and!; [exact Hquery | apply Hshown | apply Hshown | reflexivity].
Defined.

(** C1, as stated, fails in two ways. With the three flags false, the
    filter state holds no true flag for the type [constructor], and the
    record is in the projection, because [filters["constructor"]] is the
    function every object inherits. And the query of two spaces is not
    empty and occurs in no title, yet the projection keeps [dentist]:
    the callback compares titles only when the trimmed query is not
    empty. *)
Lemma filteredEvents_keeps_more_than_the_shown :
  filters_of false false false !! type inherited = None
  ∧ inherited ∈ @filteredEvents ascii_engine [dentist; inherited]
                  (filters_of false false false) []
  ∧ js "  " ≠ []
  ∧ ¬ contains_ignoring_case (title dentist) (js "  ")
  ∧ dentist ∈ @filteredEvents ascii_engine [dentist] initial_filters (js "  ").
Proof.
  split_and!.
  - reflexivity.
  - apply list_elem_of_here.
  - done.
  - rewrite contains_ignoring_case_lower, <- includes_spec. by vm_compute.
  - apply list_elem_of_here.
Qed.

(** ** The filter state *)

Lemma get_truthy_missing (o : gmap (list N) bool) k :
  o !! k = None → k ∉ Object_prototype_keys → get_truthy o k = false.
Proof.
  unfold get_truthy. intros -> Hk. by apply bool_decide_eq_false.
Qed.

Lemma filters_of_lookup reminder plan other k :
  filters_of reminder plan other !! k
  = if bool_decide (k = js "reminder") then Some reminder
    else if bool_decide (k = js "plan") then Some plan
    else if bool_decide (k = js "other") then Some other
    else None.
Proof.
  unfold filters_of.
  repeat (case_bool_decide; [subst; by simplify_map_eq |]).
  by simplify_map_eq.
Qed.

Lemma filters_of_undeclared reminder plan other k :
  k ∉ eventTypes_keys → filters_of reminder plan other !! k = None.
Proof.
  intros Hk. rewrite filters_of_lookup.
  repeat (case_bool_decide; [subst; exfalso; apply Hk; compute_done |]).
  done.
Qed.

Section Filters.
Context `{Engine}.

(** C9, as the code has it. A record whose type is neither one of the
    three declared keys nor the name of a property inherited from
    [Object.prototype] is left out of the projection, whatever the three
    flags and the query are: the filter state holds no flag for it. *)
Theorem undeclared_type_is_hidden
    (events : list Event) (reminder plan other : bool) (query : jsstring)
    (ev : Event) :
  type ev ∉ eventTypes_keys →
  type ev ∉ Object_prototype_keys →
  ev ∉ filteredEvents events (filters_of reminder plan other) query.
Proof.
  intros Hundeclared Hproto Hin.
  apply elem_of_filteredEvents in Hin as [_ [Hflag _]].
  rewrite get_truthy_missing in Hflag; [done | | done].
  by apply filters_of_undeclared.
Qed.

End Filters.

(** The hypotheses of [undeclared_type_is_hidden] hold of the record
    [holiday], which the initial filter state therefore hides. *)
Lemma undeclared_type_is_hidden_witness :
  (type holiday ∉ eventTypes_keys)
  ∧ (type holiday ∉ Object_prototype_keys)
  ∧ (holiday ∉ @filteredEvents ascii_engine [dentist; holiday]
                 initial_filters []).
Proof.
  assert (H1 : type holiday ∉ eventTypes_keys) by compute_done.
  assert (H2 : type holiday ∉ Object_prototype_keys) by compute_done.
  split_and!; [exact H1 | exact H2 |].
  exact (@undeclared_type_is_hidden ascii_engine [dentist; holiday]
           true true true [] holiday H1 H2).
Defined.

(** C9, as stated, fails: the type [constructor] is none of the three
    declared keys, and the record is in the projection, because
    [filters["constructor"]] is the function every object inherits. *)
Lemma inherited_type_is_shown :
  (type inherited ∉ eventTypes_keys)
  ∧ @filteredEvents ascii_engine [dentist; inherited] initial_filters []
    = [dentist; inherited]
  ∧ @filteredEvents ascii_engine [dentist; inherited]
      (filters_of false false false) []
    = [inherited].
Proof. split_and!; [compute_done | reflexivity | reflexivity]. Qed.

(** C8. The filter state starts with the three declared keys, each at
    true. Toggling a type negates the flag of that type and leaves the
    flag of every other type, and the rest of the state, as they were. *)
Theorem toggleFilter_flips_one_flag (s : State) (t : jsstring) :
  (∀ events dark, filters (initial_state events dark) = initial_filters)
  ∧ dom initial_filters = list_to_set eventTypes_keys
  ∧ (∀ k, k ∈ eventTypes_keys → initial_filters !! k = Some true)
  ∧ get_truthy (filters (toggleFilter t s)) t = negb (get_truthy (filters s) t)
  ∧ (∀ b, filters s !! t = Some b →
          filters (toggleFilter t s) !! t = Some (negb b))
  ∧ (∀ t', t' ≠ t → filters (toggleFilter t s) !! t' = filters s !! t')
  ∧ (∀ t', t' ≠ t →
           get_truthy (filters (toggleFilter t s)) t'
           = get_truthy (filters s) t')
  ∧ setFilters (filters s) (toggleFilter t s) = s.
Proof.
  split_and!.
  - done.
  - compute_done.
  - intros k Hk. unfold initial_filters. rewrite filters_of_lookup.
    repeat (case_bool_decide; [done |]).
    unfold eventTypes_keys, eventTypes in Hk. simpl in Hk.
    rewrite !elem_of_cons, elem_of_nil in Hk. intuition.
  - simpl. apply get_truthy_own, lookup_insert_eq.
  - intros b Hb. simpl. rewrite lookup_insert_eq.
    by rewrite (get_truthy_own _ _ _ Hb).
  - intros t' Hne. simpl. by apply lookup_insert_ne.
  - intros t' Hne. simpl. unfold get_truthy at 1.
    by rewrite lookup_insert_ne.
  - by destruct s.
Qed.

(** ** The store *)

(** C10. [removeEvent] leaves no event selected, whatever was selected
    before and whether or not a record has the id; of the state it
    changes [events] and [selectedEvent] only. *)
Theorem removeEvent_clears_the_selection (s : State) (id' : Z) :
  selectedEvent (removeEvent id' s) = None
  ∧ setEvents (events s) (setSelectedEvent (selectedEvent s) (removeEvent id' s))
    = s.
Proof. split; [reflexivity | by destruct s]. Qed.

Lemma removeEvent_events s id' :
  events (removeEvent id' s)
  = List.filter (λ ev, negb (id ev =? id')) (events s).
Proof. reflexivity. Qed.

Lemma List_filter_none {A} (f : A → bool) (l : list A) :
  (∀ x, x ∈ l → f x = false) → List.filter f l = [].
Proof.
  induction l as [|x l IH]; simpl; intros Hall; [done |].
  rewrite (Hall x) by constructor. apply IH.
  intros y Hy. apply Hall. by constructor.
Qed.

Lemma length_filter_split {A} (f : A → bool) (l : list A) :
  (length (List.filter (λ x, negb (f x)) l) + length (List.filter f l))%nat
  = length l.
Proof.
  induction l as [|x l IH]; simpl; [done |].
  destruct (f x); simpl; lia.
Qed.

Lemma count_id_NoDup id' events :
  NoDup (ids events) → id' ∈ ids events → count_id id' events = 1%nat.
Proof.
  unfold ids, count_id. induction events as [|ev events IH]; simpl.
  - intros _ Hin. by apply elem_of_nil in Hin.
  - rewrite NoDup_cons. intros [Hfresh Hnd] Hin.
    destruct (Z.eqb_spec (id ev) id') as [Heq | Hne]; simpl.
    + f_equal. rewrite List_filter_none; [done |].
      intros ev' Hev'. apply Z.eqb_neq. intros Heq'. apply Hfresh.
      rewrite Heq, <- Heq'. by apply list_elem_of_fmap_2.
    + apply IH; [done |]. apply elem_of_cons in Hin as [Heq | Hin]; [| done].
      congruence.
Qed.

(** C5, as the code has it. [removeEvent] keeps the records whose id
    differs from the argument, in their order: no record with the id is
    left, and the store shrinks by the number of records that carried
    it, which is one when the ids in the store are distinct and a record
    has the id. When no record has the id the store is unchanged. *)
Theorem removeEvent_removes_every_match (s : State) (id' : Z) :
  (id' ∉ ids (events (removeEvent id' s)))
  ∧ (length (events (removeEvent id' s)) + count_id id' (events s))%nat
    = length (events s)
  ∧ (NoDup (ids (events s)) → id' ∈ ids (events s) →
     length (events s) = S (length (events (removeEvent id' s))))
  ∧ (id' ∉ ids (events s) → events (removeEvent id' s) = events s)
  ∧ events (removeEvent id' s) `sublist_of` events s.
Proof.
  rewrite removeEvent_events. split_and!.
  - unfold ids. rewrite list_elem_of_fmap. intros (ev & -> & Hev).
    apply elem_of_List_filter in Hev as [_ Hev].
    by rewrite Z.eqb_refl in Hev.
  - apply (length_filter_split (λ ev, id ev =? id')).
  - intros Hnd Hin.
    pose proof (length_filter_split (λ ev, id ev =? id') (events s)) as Hlen.
    pose proof (count_id_NoDup id' (events s) Hnd Hin) as Hone.
    unfold count_id in Hone. lia.
  - intros Hout. apply length_List_filter_all. intros ev Hev.
    apply negb_true_iff, Z.eqb_neq. intros Heq. apply Hout.
    unfold ids. rewrite <- Heq. by apply list_elem_of_fmap_2.
  - apply List_filter_sublist.
Qed.

(** The store [dentist; trip] has distinct ids, and holds the id 1 but
    not the id 7. *)
Lemma removeEvent_removes_every_match_witness :
  let s := initial_state [dentist; trip] false in
  NoDup (ids (events s)) ∧ 1 ∈ ids (events s) ∧ (7 ∉ ids (events s))
  ∧ length (events s) = S (length (events (removeEvent 1 s)))
  ∧ events (removeEvent 7 s) = events s.
Proof.
  intros s.
  assert (Hnd : NoDup (ids (events s))) by (apply (bool_decide_unpack _); done).
  assert (Hin : 1 ∈ ids (events s)) by (apply (bool_decide_unpack _); done).
  assert (Hout : 7 ∉ ids (events s)) by (apply (bool_decide_unpack _); done).
  split_and!; [done | done | done | |].
  - exact (proj1 (proj2 (proj2 (removeEvent_removes_every_match s 1))) Hnd Hin).
  - exact (proj1 (proj2 (proj2 (proj2
             (removeEvent_removes_every_match s 7)))) Hout).
Defined.

(** C5, as stated, fails on a store in which two records carry the id:
    both go, and the store of size 2 is left with size 0, not 1. *)
Lemma removeEvent_removes_both_twins :
  1 ∈ ids (events (initial_state [dentist; twin] false))
  ∧ length (events (initial_state [dentist; twin] false)) = 2%nat
  ∧ length (events (removeEvent 1 (initial_state [dentist; twin] false)))
    = 0%nat.
Proof. split_and!; [| reflexivity | reflexivity]. compute_done. Qed.

Section Store.
Context `{Engine}.

Lemma handleSubmit_events now s :
  events (handleSubmit now s)
  = events s
    ++ [ {| id := now;
            title := Form.title (formData s);
            description := Form.description (formData s);
            type := Form.type (formData s);
            start := new_Date (Form.start (formData s));
            end_ := new_Date (Form.end_ (formData s)) |} ].
Proof. reflexivity. Qed.

Lemma dispatch_events a s :
  events (dispatch a s)
  = match a with
    | FormSubmit now => events (handleSubmit now s)
    | DetailsDelete id' => events (removeEvent id' s)
    | _ => events s
    end.
Proof.
  destruct a; try reflexivity.
  simpl. unfold handleViewChange. by case_bool_decide.
Qed.

Lemma NoDup_ids_filter (f : Event → bool) events :
  NoDup (ids events) → NoDup (ids (List.filter f events)).
Proof.
  intros Hnd. apply (sublist_NoDup _ (ids events)); [exact Hnd |].
  unfold ids. apply fmap_sublist, List_filter_sublist.
Qed.

(** C4, as the code has it. Submitting the form appends one record, so
    the store grows from N to N+1; the id of the new record is the
    reading of the clock. It differs from every id in the store when no
    record carries that reading yet, and then a store with distinct ids
    keeps distinct ids. Every other operation keeps the ids distinct. *)
Theorem handleSubmit_appends_one_record (now : Z) (s : State) :
  length (events (handleSubmit now s)) = S (length (events s))
  ∧ (∃ newEvent,
       events (handleSubmit now s) = events s ++ [newEvent]
       ∧ id newEvent = now
       ∧ (now ∉ ids (events s) →
          ∀ ev, ev ∈ events s → id ev ≠ id newEvent))
  ∧ (now ∉ ids (events s) → NoDup (ids (events s)) →
     NoDup (ids (events (handleSubmit now s))))
  ∧ (∀ a, (∀ now', a = FormSubmit now' → now' ∉ ids (events s)) →
          NoDup (ids (events s)) → NoDup (ids (events (dispatch a s)))).
Proof.
  assert (Hadd : ∀ now', now' ∉ ids (events s) → NoDup (ids (events s)) →
                         NoDup (ids (events (handleSubmit now' s)))).
  { intros now' Hfresh Hnd. rewrite handleSubmit_events. unfold ids.
    rewrite fmap_app. simpl. apply NoDup_app. split_and!; [done | |].
    - intros x Hx Hx'. apply list_elem_of_singleton in Hx'. by subst.
    - apply NoDup_singleton. }
  split_and!.
  - rewrite handleSubmit_events, length_app. simpl. lia.
  - eexists. split_and!; [apply handleSubmit_events | reflexivity |].
    simpl. intros Hfresh ev Hev Heq. apply Hfresh. rewrite <- Heq.
    by apply list_elem_of_fmap_2.
  - apply Hadd.
  - intros a Hsubmit Hnd. rewrite dispatch_events.
    destruct a; try done.
    + apply Hadd; [by apply Hsubmit | done].
    + rewrite removeEvent_events. by apply NoDup_ids_filter.
Qed.

End Store.

(** On the store [dentist; trip], with ids 1 and 2, a submission when
    the clock reads 1700000000000 adds a third id. *)
Lemma handleSubmit_appends_one_record_witness :
  let s := initial_state [dentist; trip] false in
  (1700000000000 ∉ ids (events s))
  ∧ NoDup (ids (events s))
  ∧ NoDup (ids (events (@handleSubmit ascii_engine 1700000000000 s)))
  ∧ NoDup (ids (events (@dispatch ascii_engine (FormSubmit 1700000000000) s))).
Proof.
  intros s.
  assert (Hfresh : 1700000000000 ∉ ids (events s))
    by (apply (bool_decide_unpack _); done).
  assert (Hnd : NoDup (ids (events s))) by (apply (bool_decide_unpack _); done).
  pose proof (@handleSubmit_appends_one_record ascii_engine 1700000000000 s)
    as (_ & _ & Hadd & Hall).
  split_and!; [done | done | by apply Hadd |].
  apply Hall; [| done]. intros now' Heq. by injection Heq as <-.
Defined.

(** C4, as stated, fails when the clock reads what it read for a record
    of the store, as it does for two submissions in one millisecond: the
    new record takes the id 1 of [dentist], and the ids are no longer
    distinct. *)
Lemma handleSubmit_repeats_an_id :
  NoDup (ids [dentist])
  ∧ ids (events (@handleSubmit ascii_engine 1 (initial_state [dentist] false)))
    = [1; 1]
  ∧ (¬ NoDup (ids (events (@handleSubmit ascii_engine 1
                              (initial_state [dentist] false))))).
Proof.
  split_and!; [apply (bool_decide_unpack _); done | reflexivity |].
  apply (bool_decide_unpack _). done.
Qed.

(** ** The view *)

Lemma in_transition_step s now newView r r' :
  in_transition s now newView r → idle_step r r' →
  in_transition s now newView r'.
Proof.
  intros [Hclock Hstate] Hstep. destruct Hstep as [r dt Hdt | r i r' Hrun].
  - split; [simpl; lia |]. simpl.
    destruct Hstate as [? | (? & ? & ?)]; [by left | right].
    split_and!; [done | done | lia].
  - unfold run_timeout in Hrun.
    destruct Hstate as [[Happ Htimers] | (Happ & Htimers & Hdue)];
      rewrite Htimers in Hrun.
    + destruct i as [|i]; simpl in Hrun; [| done].
      destruct (Z.leb_spec (now + 150) (clock r)) as [Hdue |]; [| done].
      injection Hrun as <-. split; [done |]. right. simpl.
      rewrite Happ. done.
    + by destruct i.
Qed.

Lemma in_transition_steps s now newView r r' :
  in_transition s now newView r → rtc idle_step r r' →
  in_transition s now newView r'.
Proof.
  intros Hinv Hsteps. induction Hsteps as [|r r1 r2 Hstep _ IH]; [done |].
  apply IH. by eapply in_transition_step.
Qed.

(** C6. From rest, a call of [handleViewChange] with the current view
    changes nothing and sets no timeout. With another view it sets the
    flag at once, leaves the view, and sets one timeout, due 150 ms
    later. From then on, while only time passes and timeouts run: before
    the 150 ms have passed the view is the old one and the flag is set;
    the view is the new one exactly when the flag is clear again, which
    is when the timeout has run; and once the 150 ms have passed the
    timeout can run, and sets the view and clears the flag. *)
Theorem handleViewChange_commits_after_the_delay
    (s : State) (now : Z) (newView : jsstring) :
  (view s = newView →
   call_handleViewChange newView (at_rest s now) = at_rest s now)
  ∧ (view s ≠ newView →
     call_handleViewChange newView (at_rest s now)
     = {| component := setZooming true s; clock := now;
          timers := [(now + 150, newView)] |}
     ∧ (∀ r, rtc idle_step (call_handleViewChange newView (at_rest s now)) r →
          (clock r < now + 150 →
           view (component r) = view s ∧ zooming (component r) = true)
          ∧ (view (component r) = newView ↔ zooming (component r) = false)
          ∧ (zooming (component r) = false ↔ timers r = [])
          ∧ (timers r = [] → now + 150 ≤ clock r))
     ∧ (∀ dt, 150 ≤ dt →
          run_timeout 0 (elapse dt (call_handleViewChange newView
                                      (at_rest s now)))
          = Some {| component := setZooming false (setView newView s);
                    clock := now + dt; timers := [] |})
     ∧ (∀ dt i, 0 ≤ dt < 150 →
          run_timeout i (elapse dt (call_handleViewChange newView
                                      (at_rest s now)))
          = None)).
Proof.
  unfold call_handleViewChange, handleViewChange, at_rest. simpl.
  split; intros Hview; case_bool_decide; try done. simpl.
  split_and!.
  - done.
  - intros r Hsteps.
    assert (Hinv : in_transition s now newView r).
    { eapply in_transition_steps; [| exact Hsteps].
      split; [simpl; lia | by left]. }
    destruct Hinv as [Hclock [[Happ Htimers] | (Happ & Htimers & Hdue)]];
      rewrite Happ, Htimers; simpl.
    + split_and!; [done | | done | done]. split; [congruence | done].
    + split_and!; [lia | done | done | done].
  - intros dt Hdt. unfold run_timeout, elapse. simpl.
    destruct (Z.leb_spec (now + 150) (now + dt)); [done | lia].
  - intros dt i Hdt. unfold run_timeout, elapse. simpl.
    destruct i as [|i]; simpl; [| done].
    destruct (Z.leb_spec (now + 150) (now + dt)); [lia | done].
Qed.

(** The view is [month] and [week] is asked for, at time 1000: the view
    is [week] once the timeout has run, 150 ms later; asking for [month]
    changes nothing. *)
Lemma handleViewChange_commits_after_the_delay_witness :
  let s := initial_state [] false in
  view s ≠ js "week"
  ∧ view s = js "month"
  ∧ call_handleViewChange (js "month") (at_rest s 1000) = at_rest s 1000
  ∧ run_timeout 0 (elapse 150 (call_handleViewChange (js "week")
                                 (at_rest s 1000)))
    = Some {| component := setZooming false (setView (js "week") s);
              clock := 1150; timers := [] |}.
Proof.
  intros s.
  assert (Hne : view s ≠ js "week") by (apply (bool_decide_unpack _); done).
  assert (Heq : view s = js "month") by reflexivity.
  pose proof (handleViewChange_commits_after_the_delay s 1000 (js "month"))
    as [Hsame _].
  pose proof (handleViewChange_commits_after_the_delay s 1000 (js "week"))
    as [_ Hother].
  split_and!; [done | done | by apply Hsame |].
  destruct (Hother Hne) as (_ & _ & Hrun & _). by apply (Hrun 150).
Defined.

(** ** The projection reads and does not write *)

Lemma lookup_insert_fresh (h : gmap positive object) A o l x :
  h !! A = None → h !! l = Some x → (<[A := o]> h) !! l = Some x.
Proof.
  intros HA Hl. rewrite lookup_insert_ne; [done |]. intros <-. congruence.
Qed.

Lemma kept_records (h : gmap positive object) (p : Event → bool) items evs :
  Forall2 (λ l ev, h !! l = Some (ORecord ev)) items evs →
  Forall2 (λ l ev, h !! l = Some (ORecord ev))
    (List.filter (λ x, p x.2) (zip items evs)).*1 (List.filter p evs).
Proof.
  induction 1 as [|l ev items evs Hl _ IH]; simpl; [constructor |].
  destruct (p ev); simpl; [by constructor | done].
Qed.

Lemma records_Forall2 (h : gmap positive object) a items evs :
  h !! a = Some (OArray items) →
  Forall2 (λ l ev, h !! l = Some (ORecord ev)) items evs →
  records h a = Some evs.
Proof.
  intros Ha Hrec. unfold records. rewrite Ha. apply mapM_Some.
  eapply Forall2_impl; [exact Hrec |]. intros l ev Hl.
  unfold read_record. by rewrite Hl.
Qed.

Lemma records_inv (h : gmap positive object) a evs :
  records h a = Some evs →
  ∃ items, h !! a = Some (OArray items)
           ∧ Forall2 (λ l ev, h !! l = Some (ORecord ev)) items evs.
Proof.
  unfold records. destruct (h !! a) as [[| items |]|]; try done.
  intros Hrec. exists items. split; [done |].
  apply mapM_Some in Hrec.
  eapply Forall2_impl; [exact Hrec |]. intros l ev. unfold read_record.
  destruct (h !! l) as [[]|]; congruence.
Qed.

Section Purity.
Context `{Engine}.

(** The callback reads the record and the flags, and gives what
    [visible] gives on the record, in the memory it was called in. *)
Lemma callback_reads h f filters query l ev :
  h !! f = Some (OFlags filters) →
  h !! l = Some (ORecord ev) →
  callback f query l h = Some (visible filters query ev, h).
Proof.
  intros Hf Hl. unfold callback, bind, get_type, get_flag, get_title, ret,
    visible.
  rewrite Hl, Hf.
  destruct (negb (get_truthy filters (type ev))); [done |].
  destruct (string_truthy (trim query)); [| done].
  rewrite Hl. simpl. by destruct (negb _).
Qed.

(** The loop, from a memory in which the new array holds [acc]: it
    appends the references whose records the callback selects. *)
Lemma filter_loop_callback h0 O A f filters query rest :
  ∀ pre acc evs,
  h0 !! A = None →
  h0 !! O = Some (OArray (pre ++ rest)) →
  h0 !! f = Some (OFlags filters) →
  Forall2 (λ l ev, h0 !! l = Some (ORecord ev)) rest evs →
  filter_loop (callback f query) O A (length pre) (length rest)
    (<[A := OArray acc]> h0)
  = Some (tt, <[A := OArray
                     (acc ++ (List.filter (λ x, visible filters query x.2)
                                (zip rest evs)).*1)]> h0).
Proof.
  induction rest as [|l rest IH]; intros pre acc evs HA HO Hf Hrec.
  - apply Forall2_nil_inv_l in Hrec as ->. simpl. by rewrite app_nil_r.
  - apply Forall2_cons_inv_l in Hrec as (ev & evs' & Hl & Hrec & ->).
    cbn [length filter_loop].
    rewrite (lookup_insert_fresh _ _ _ _ _ HA HO).
    rewrite list_lookup_middle by done.
    unfold bind at 1.
    rewrite (callback_reads _ f filters query l ev)
      by (by apply lookup_insert_fresh).
    specialize (IH (pre ++ [l]) (if visible filters query ev
                                 then acc ++ [l] else acc) evs' HA).
    rewrite <- app_assoc in IH. specialize (IH HO Hf Hrec).
    rewrite length_app, Nat.add_1_r in IH.
    simpl. destruct (visible filters query ev).
    + unfold bind, push. rewrite lookup_insert_eq, insert_insert_eq.
      rewrite IH. simpl. by rewrite <- app_assoc.
    + unfold bind, ret. by rewrite IH.
Qed.

Lemma filteredEvents_in_memory_spec h a f filters query items evs :
  h !! a = Some (OArray items) →
  h !! f = Some (OFlags filters) →
  Forall2 (λ l ev, h !! l = Some (ORecord ev)) items evs →
  filteredEvents_in_memory a f query h
  = Some (fresh (dom h),
          <[fresh (dom h) := OArray
              (List.filter (λ x, visible filters query x.2)
                 (zip items evs)).*1]> h).
Proof.
  intros Ha Hf Hrec. unfold filteredEvents_in_memory, Array_filter.
  rewrite Ha. unfold bind at 1.
  assert (Hfresh : h !! fresh (dom h) = None)
    by apply not_elem_of_dom, is_fresh.
  by rewrite (filter_loop_callback h _ _ f filters query items [] [] evs).
Qed.

(** C7. Computing the projection twice from the same array of events,
    the same filter flags and the same query, the second time in the
    memory the first has left, gives two arrays that hold the same
    references in the same order, hence the same records, those of
    [filteredEvents]. Each call creates one array and nothing else, and
    every object that was in memory before, the array of events, each of
    its records and the filter flags among them, is as it was: the
    callback reads [ev.type], [filters[ev.type]] and [ev.title] and
    assigns to nothing. *)
Theorem filteredEvents_is_read_only
    (h : gmap positive object) (a f : positive) (events : list Event)
    (filters : gmap (list N) bool) (query : jsstring) :
  records h a = Some events →
  h !! f = Some (OFlags filters) →
  ∃ r1 h1 r2 h2,
    filteredEvents_in_memory a f query h = Some (r1, h1)
    ∧ filteredEvents_in_memory a f query h1 = Some (r2, h2)
    ∧ h1 !! r1 = h2 !! r2
    ∧ records h1 r1 = Some (filteredEvents events filters query)
    ∧ records h2 r2 = Some (filteredEvents events filters query)
    ∧ (r1 ∉ dom h) ∧ (r2 ∉ dom h1) ∧ r1 ≠ r2
    ∧ dom h1 = {[r1]} ∪ dom h ∧ dom h2 = {[r2]} ∪ dom h1
    ∧ (∀ l, l ∈ dom h → h1 !! l = h !! l ∧ h2 !! l = h !! l)
    ∧ records h1 a = Some events ∧ records h2 a = Some events
    ∧ h1 !! f = Some (OFlags filters) ∧ h2 !! f = Some (OFlags filters).
Proof.
  intros (items & Ha & Hrec)%records_inv Hf.
  set (kept := (List.filter (λ x, visible filters query x.2)
                  (zip items events)).*1).
  set (r1 := fresh (dom h)). set (h1 := <[r1 := OArray kept]> h).
  set (r2 := fresh (dom h1)). set (h2 := <[r2 := OArray kept]> h1).
  assert (Hr1 : h !! r1 = None) by apply not_elem_of_dom, is_fresh.
  assert (Hr2 : h1 !! r2 = None) by apply not_elem_of_dom, is_fresh.
  assert (Hkeep1 : ∀ l x, h !! l = Some x → h1 !! l = Some x).
  { intros l x. by apply lookup_insert_fresh. }
  assert (Hkeep2 : ∀ l x, h1 !! l = Some x → h2 !! l = Some x).
  { intros l x. by apply lookup_insert_fresh. }
  assert (Hrec1 : Forall2 (λ l ev, h1 !! l = Some (ORecord ev)) items events).
  { eapply Forall2_impl; [exact Hrec |]. intros l ev. apply Hkeep1. }
  assert (Hrec2 : Forall2 (λ l ev, h2 !! l = Some (ORecord ev)) items events).
  { eapply Forall2_impl; [exact Hrec1 |]. intros l ev. apply Hkeep2. }
  assert (Hout1 : h1 !! r1 = Some (OArray kept)) by apply lookup_insert_eq.
  assert (Hout2 : h2 !! r2 = Some (OArray kept)) by apply lookup_insert_eq.
  exists r1, h1, r2, h2. split_and!.
  - by apply filteredEvents_in_memory_spec.
  - by apply (filteredEvents_in_memory_spec h1 a f filters query items events);
      [apply Hkeep1 | apply Hkeep1 |].
  - by rewrite Hout1, Hout2.
  - apply (records_Forall2 _ _ kept); [done |]. by apply kept_records.
  - apply (records_Forall2 _ _ kept); [done |]. by apply kept_records.
  - by apply not_elem_of_dom.
  - by apply not_elem_of_dom.
  - intros Heq. rewrite <- Heq in Hr2. congruence.
  - unfold h1. by rewrite dom_insert_L.
  - unfold h2. by rewrite dom_insert_L.
  - intros l [x Hl]%elem_of_dom. rewrite Hl.
    split; [by apply Hkeep1 | by apply Hkeep2, Hkeep1].
  - apply (records_Forall2 _ _ items); [by apply Hkeep1 | done].
  - apply (records_Forall2 _ _ items); [by apply Hkeep2, Hkeep1 | done].
  - by apply Hkeep1.
  - by apply Hkeep2, Hkeep1.
Qed.

End Purity.

(** The array at 4 of [three_events] holds [dentist], [trip] and
    [holiday]; the projection with the initial filter flags and an empty
    query holds the first two, both times. *)
Lemma filteredEvents_is_read_only_witness :
  records three_events 4 = Some [dentist; trip; holiday]
  ∧ three_events !! 5%positive = Some (OFlags initial_filters)
  ∧ ∃ r1 h1 r2 h2,
      @filteredEvents_in_memory ascii_engine 4 5 [] three_events
      = Some (r1, h1)
      ∧ @filteredEvents_in_memory ascii_engine 4 5 [] h1 = Some (r2, h2)
      ∧ records h1 r1 = Some [dentist; trip]
      ∧ records h2 r2 = Some [dentist; trip]
      ∧ records h2 4 = Some [dentist; trip; holiday].
Proof.
  assert (Hrec : records three_events 4 = Some [dentist; trip; holiday])
    by reflexivity.
  assert (Hflags : three_events !! 5%positive = Some (OFlags initial_filters))
    by reflexivity.
  split_and!; [exact Hrec | exact Hflags |].
  destruct (@filteredEvents_is_read_only ascii_engine three_events 4 5
              [dentist; trip; holiday] initial_filters [] Hrec Hflags)
    as (r1 & h1 & r2 & h2 & H1 & H2 & _ & Hout1 & Hout2 & _ & _ & _ & _ & _
        & _ & _ & Ha & _).
  exists r1, h1, r2, h2. split_and!; done.
Defined.

(** [Array.prototype.filter] with a callback that assigns does change
    the records: the property above is one of the callback of
    [filteredEvents], not of every callback. *)
Lemma Array_filter_with_a_writing_callback :
  ∃ r h', Array_filter clearing_callback 4 three_events = Some (r, h')
          ∧ records three_events 4 = Some [dentist; trip; holiday]
          ∧ title <$> default [] (records h' 4) = [[]; []; []].
Proof. eexists _, _. split_and!; [vm_compute; reflexivity | done | done]. Qed.

(** ** Loading the store *)

Section Load.
Context `{Engine}.

Lemma events_initializer_None localStorage :
  localStorage !! js "calendarEvents" = None →
  events_initializer localStorage = (Normal (VArr []), []).
Proof. unfold events_initializer. by intros ->. Qed.

Lemma events_initializer_Some localStorage saved :
  localStorage !! js "calendarEvents" = Some saved →
  events_initializer localStorage
  = if string_truthy saved then
      match parse_text saved with
      | Some v => (Normal (internalize reviver [] v), [])
      | None =>
          (Normal (VArr []),
           [Warn (js "Failed to parse saved events") SyntaxError])
      end
    else (Normal (VArr []), []).
Proof.
  unfold events_initializer, JSON_parse. intros ->.
  destruct (string_truthy saved); [| done]. by destruct (parse_text saved).
Qed.

(** C3. When the entry is absent, or is a text [JSON.parse] rejects, as
    the text [{not json] is, the initialiser of [events] completes
    normally with the empty array; a rejected text leaves one warning in
    the console and nothing else happens. For no content of the storage
    does the initialiser throw. *)
Theorem events_initializer_survives_bad_storage
    (localStorage : gmap (list N) (list N)) :
  (localStorage !! js "calendarEvents" = None →
   events_initializer localStorage = (Normal (events_value []), []))
  ∧ (∀ saved, localStorage !! js "calendarEvents" = Some saved →
       parse_text saved = None →
       ∃ log, events_initializer localStorage = (Normal (events_value []), log)
              ∧ (log = []
                 ∨ log = [Warn (js "Failed to parse saved events") SyntaxError]))
  ∧ parse_text (js "{not json") = None
  ∧ events_initializer (<[js "calendarEvents" := js "{not json"]> localStorage)
    = (Normal (events_value []),
       [Warn (js "Failed to parse saved events") SyntaxError])
  ∧ (∃ v log, events_initializer localStorage = (Normal v, log)).
Proof.
  split_and!.
  - apply events_initializer_None.
  - intros saved Hsaved Hbad.
    rewrite (events_initializer_Some _ _ Hsaved), Hbad.
    destruct (string_truthy saved); eauto.
  - reflexivity.
  - by rewrite (events_initializer_Some _ (js "{not json"))
      by apply lookup_insert_eq.
  - destruct (localStorage !! js "calendarEvents") as [saved|] eqn:Hsaved.
    + rewrite (events_initializer_Some _ _ Hsaved).
      destruct (string_truthy saved); [| eauto].
      destruct (parse_text saved); eauto.
    + rewrite (events_initializer_None _ Hsaved). eauto.
Qed.

End Load.

(** With no entry, and with the entry [{not json], the store starts
    empty. *)
Lemma events_initializer_survives_bad_storage_witness :
  (∅ : gmap (list N) (list N)) !! js "calendarEvents" = None
  ∧ @events_initializer ascii_engine ∅ = (Normal (VArr []), [])
  ∧ parse_text (js "{not json") = None
  ∧ ∃ log,
      @events_initializer ascii_engine {[js "calendarEvents" := js "{not json"]}
      = (Normal (VArr []), log).
Proof.
  assert (Hnone : (∅ : gmap (list N) (list N)) !! js "calendarEvents" = None)
    by reflexivity.
  assert (Hbad : parse_text (js "{not json") = None) by reflexivity.
  destruct (@events_initializer_survives_bad_storage ascii_engine ∅)
    as (Habsent & _).
  destruct (@events_initializer_survives_bad_storage ascii_engine
              {[js "calendarEvents" := js "{not json"]})
    as (_ & Hrejected & _).
  split_and!; [done | by apply Habsent | done |].
  destruct (Hrejected (js "{not json") (lookup_singleton_eq _ _) Hbad)
    as (log & Hlog & _).
  by exists log.
Defined.

(** * Saving and loading *)

(** ** Digits *)

Ltac js_literals :=
  repeat match goal with
         | |- context [js ?s] =>
             let v := eval vm_compute in (js s) in change (js s) with v
         end.

Lemma length_digits w n : length (digits w n) = w.
Proof.
  revert n. induction w as [|w IH]; intros n; simpl; [done |].
  rewrite length_app, IH. simpl. lia.
Qed.

Lemma digit_of_spec d :
  0 ≤ d ≤ 9 → is_digit (digit_of d) = true ∧ Z.of_N (digit_of d) - 48 = d.
Proof.
  intros Hd. unfold is_digit, digit_of.
  rewrite andb_true_iff, !N.leb_le. lia.
Qed.

Lemma number_of_digits_from_digits w n acc rest :
  0 ≤ n →
  number_of_digits_from acc (digits w n ++ rest)
  = number_of_digits_from (acc * 10 ^ Z.of_nat w + n mod 10 ^ Z.of_nat w) rest.
Proof.
  revert n acc rest. induction w as [|w IH]; intros n acc rest Hn.
  - simpl. f_equal. rewrite Z.mod_1_r. lia.
  - simpl digits. rewrite <- app_assoc, IH by (apply Z.div_pos; lia).
    simpl app. simpl number_of_digits_from.
    destruct (digit_of_spec (n mod 10)) as [-> ->];
      [pose proof (Z.mod_pos_bound n 10); lia |].
    f_equal. rewrite Nat2Z.inj_succ, Z.pow_succ_r by lia.
    assert (Hpow : 0 < 10 ^ Z.of_nat w) by (apply Z.pow_pos_nonneg; lia).
    rewrite Z.rem_mul_r by lia. lia.
Qed.

Lemma number_of_digits_digits w n :
  0 ≤ n < 10 ^ Z.of_nat w → number_of_digits (digits w n) = Some n.
Proof.
  intros Hn. unfold number_of_digits.
  rewrite <- (app_nil_r (digits w n)), number_of_digits_from_digits by lia.
  simpl. f_equal. rewrite Z.mod_small; lia.
Qed.

Lemma read_digits_digits w n rest :
  0 ≤ n < 10 ^ Z.of_nat w →
  read_digits w (digits w n ++ rest) = Some (n, rest).
Proof.
  intros Hn. unfold read_digits.
  rewrite take_app_length', drop_app_length' by (by rewrite length_digits).
  rewrite length_digits, bool_decide_eq_true_2 by done.
  by rewrite number_of_digits_digits.
Qed.

Lemma digits_head_is_digit w n rest c s :
  0 ≤ n → digits (S w) n ++ rest = c :: s → is_digit c = true.
Proof.
  revert n rest. induction w as [|w IH]; intros n rest Hn.
  - simpl. intros [= <- _]. apply digit_of_spec.
    pose proof (Z.mod_pos_bound n 10). lia.
  - change (digits (S (S w)) n)
      with (digits (S w) (n / 10) ++ [digit_of (n mod 10)]).
    rewrite <- app_assoc. apply IH, Z.div_pos; lia.
Qed.

(** ** Dates *)

Lemma DayFromYear_step y : DayFromYear (y + 1) = DayFromYear y + DaysInYear y.
Proof.
  unfold DayFromYear, DaysInYear.
  repeat match goal with
         | |- context [?a =? ?b] => destruct (Z.eqb_spec a b)
         end; simpl; Z.to_euclidean_division_equations; lia.
Qed.

Lemma DaysInYear_cases y : DaysInYear y = 365 ∨ DaysInYear y = 366.
Proof.
  unfold DaysInYear.
  repeat match goal with
         | |- context [?a =? ?b] => destruct (Z.eqb_spec a b)
         end; simpl; auto.
Qed.

(** [YearFromDay] is the year the day number falls in. *)
Lemma YearFromDay_spec d :
  DayFromYear (YearFromDay d) ≤ d < DayFromYear (YearFromDay d + 1).
Proof.
  unfold YearFromDay.
  set (y := 1970 + 400 * d / 146097).
  assert (DayFromYear (y - 1) ≤ d < DayFromYear (y + 2)).
  { unfold DayFromYear, y. Z.to_euclidean_division_equations. lia. }
  pose proof (DayFromYear_step (y - 1)). pose proof (DayFromYear_step y).
  pose proof (DayFromYear_step (y + 1)).
  replace (y - 1 + 1) with y in * by lia.
  replace (y + 1 + 1) with (y + 2) in * by lia.
  destruct (Z.ltb_spec d (DayFromYear y)).
  - replace (y - 1 + 1) with y by lia. lia.
  - destruct (Z.leb_spec (DayFromYear (y + 1)) d).
    + replace (y + 1 + 1) with (y + 2) by lia. lia.
    + lia.
Qed.

Lemma YearFromTime_range t :
  - maxTime ≤ t ≤ maxTime → -999999 ≤ YearFromTime t ≤ 999999.
Proof.
  unfold maxTime, YearFromTime, YearFromDay, Day, msPerDay. intros Ht.
  repeat case_match; Z.to_euclidean_division_equations; lia.
Qed.

Lemma month_of_day_spec leap dwy :
  leap = 0 ∨ leap = 1 → 0 ≤ dwy < 365 + leap →
  0 ≤ month_of_day leap dwy ≤ 11
  ∧ 1 ≤ dwy - month_start leap (month_of_day leap dwy) + 1
    ≤ month_start leap (month_of_day leap dwy + 1)
      - month_start leap (month_of_day leap dwy + 1 - 1)
  ∧ dwy - month_start leap (month_of_day leap dwy) + 1 ≤ 31.
Proof.
  intros [-> | ->] Hdwy; unfold month_of_day; simpl;
    repeat (match goal with
            | |- context [if ?a <? ?b then _ else _] =>
                destruct (Z.ltb_spec a b)
            end; [unfold month_start; simpl; lia |]);
    unfold month_start; simpl; lia.
Qed.

Lemma time_within_day t :
  MakeTime (HourFromTime t) (MinFromTime t) (SecFromTime t) (msFromTime t)
  = t mod msPerDay.
Proof.
  unfold MakeTime, HourFromTime, MinFromTime, SecFromTime, msFromTime, msPerDay.
  Z.to_euclidean_division_equations. lia.
Qed.

Lemma time_fields_range t :
  0 ≤ HourFromTime t ≤ 23 ∧ 0 ≤ MinFromTime t ≤ 59 ∧ 0 ≤ SecFromTime t ≤ 59
  ∧ 0 ≤ msFromTime t ≤ 999.
Proof.
  unfold HourFromTime, MinFromTime, SecFromTime, msFromTime.
  Z.to_euclidean_division_equations. lia.
Qed.

Lemma date_fields_range t :
  0 ≤ MonthFromTime t ≤ 11
  ∧ 1 ≤ DateFromTime t
    ≤ month_start (InLeapYear t) (MonthFromTime t + 1)
      - month_start (InLeapYear t) (MonthFromTime t + 1 - 1)
  ∧ DateFromTime t ≤ 31.
Proof.
  unfold DateFromTime, MonthFromTime.
  assert (Hleap : InLeapYear t = 0 ∨ InLeapYear t = 1).
  { unfold InLeapYear. case_match; auto. }
  assert (Hdwy : 0 ≤ DayWithinYear t < 365 + InLeapYear t).
  { unfold DayWithinYear, InLeapYear, YearFromTime.
    pose proof (YearFromDay_spec (Day t)) as Hy.
    rewrite DayFromYear_step in Hy.
    destruct (DaysInYear_cases (YearFromDay (Day t))) as [Hd | Hd];
      rewrite Hd in *; simpl; lia. }
  apply (month_of_day_spec _ _ Hleap Hdwy).
Qed.

Lemma MakeDate_fields t :
  MakeDate (MakeDay (YearFromTime t) (MonthFromTime t + 1 - 1) (DateFromTime t))
           (MakeTime (HourFromTime t) (MinFromTime t) (SecFromTime t)
                     (msFromTime t))
  = t.
Proof.
  rewrite time_within_day. unfold MakeDate, MakeDay, DateFromTime.
  replace (MonthFromTime t + 1 - 1) with (MonthFromTime t) by lia.
  change (if DaysInYear (YearFromTime t) =? 366 then 1 else 0)
    with (InLeapYear t).
  unfold DayWithinYear, Day, msPerDay.
  Z.to_euclidean_division_equations. lia.
Qed.

Lemma expect_cons c s : expect c (c :: s) = Some s.
Proof. simpl. by rewrite N.eqb_refl. Qed.

Lemma is_digit_not c c' : is_digit c = true → is_digit c' = false → (c =? c')%N = false.
Proof. intros Hc Hc'. apply N.eqb_neq. intros ->. congruence. Qed.

Lemma parse_iso_year_iso_year y rest :
  -999999 ≤ y ≤ 999999 →
  parse_iso_year (iso_year y ++ rest) = Some (y, rest).
Proof.
  intros Hy. unfold iso_year.
  destruct (Z.leb_spec 0 y) as [Hpos | Hneg]; cbn [andb].
  - destruct (Z.leb_spec y 9999) as [Hsmall | Hbig]; cbn [andb].
    + destruct (digits 4 y ++ rest) as [|c s] eqn:Hs.
      { apply (f_equal length) in Hs.
        rewrite length_app, length_digits in Hs. done. }
      pose proof (digits_head_is_digit 3 y rest c s Hpos Hs) as Hc.
      unfold parse_iso_year.
      rewrite (is_digit_not c 43), (is_digit_not c 45) by done.
      rewrite <- Hs. apply read_digits_digits. simpl. lia.
    + destruct (Z.ltb_spec y 0); [lia |]. js_literals.
      unfold parse_iso_year. cbn [app]. simpl N.eqb. cbv iota.
      rewrite Z.abs_eq by lia. apply read_digits_digits. simpl. lia.
  - destruct (Z.ltb_spec y 0); [| lia]. js_literals.
    unfold parse_iso_year. cbn [app]. simpl N.eqb. cbv iota.
    rewrite read_digits_digits by (simpl; lia). cbn [mbind option_bind].
    destruct (Z.eqb_spec (Z.abs y) 0); [lia |]. do 2 f_equal. lia.
Qed.

(** Reading back what [toISOString] wrote gives the time value. *)
Lemma parse_iso_toISOString t :
  - maxTime ≤ t ≤ maxTime → parse_iso (toISOString t) = Some t.
Proof.
  intros Ht. pose proof (YearFromTime_range t Ht) as Hy.
  destruct (date_fields_range t) as (Hmonth & Hdate & Hdate').
  destruct (time_fields_range t) as (Hhour & Hmin & Hsec & Hms).
  unfold toISOString, parse_iso. js_literals. cbn [app].
  rewrite parse_iso_year_iso_year by done. cbn [mbind option_bind].
  repeat (rewrite expect_cons; cbn [mbind option_bind];
          rewrite read_digits_digits by (simpl; lia);
          cbn [mbind option_bind]).
  rewrite expect_cons. cbn [mbind option_bind].
  change (if DaysInYear (YearFromTime t) =? 366 then 1 else 0)
    with (InLeapYear t).
  rewrite bool_decide_eq_true_2 by done.
  rewrite !(proj2 (Z.leb_le _ _)) by lia. simpl andb. cbv iota.
  f_equal. apply MakeDate_fields.
Qed.

(** ** Lexing what [JSON.stringify] wrote *)

Lemma lex_string_cons acc c s :
  lex (LString acc) (c :: s)
  = if (c =? 34)%N
    then ts ← lex LStart s; Some (TString (reverse acc) :: ts)
    else if (c =? 92)%N then lex (LEscape acc) s
    else if (c <? 32)%N then None
    else lex (LString (c :: acc)) s.
Proof. reflexivity. Qed.

Lemma lex_escape_cons acc c s :
  lex (LEscape acc) (c :: s)
  = if (c =? 117)%N then lex (LUnicode acc 0%N 0) s
    else match escape_char c with
         | Some x => lex (LString (x :: acc)) s
         | None => None
         end.
Proof. reflexivity. Qed.

Lemma lex_unicode_cons acc v n c s :
  lex (LUnicode acc v n) (c :: s)
  = match hex_digit c with
    | Some d =>
        if bool_decide (n = 3%nat)
        then lex (LString ((16 * v + d)%N :: acc)) s
        else lex (LUnicode acc (16 * v + d)%N (S n)) s
    | None => None
    end.
Proof. reflexivity. Qed.

Lemma hex_digit_hex_char d : (d < 16)%N → hex_digit (hex_char d) = Some d.
Proof.
  intros Hd. unfold hex_digit, hex_char.
  destruct (N.ltb_spec d 10).
  - rewrite (proj2 (N.leb_le 48 (48 + d))), (proj2 (N.leb_le (48 + d) 57))
      by lia. simpl. f_equal. lia.
  - destruct (N.leb_spec (87 + d) 57); [lia |]. rewrite andb_false_r.
    rewrite (proj2 (N.leb_le 97 (87 + d))), (proj2 (N.leb_le (87 + d) 102))
      by lia. simpl. f_equal. lia.
Qed.

Lemma lex_unicode_escape acc c s :
  (c < 65536)%N →
  lex (LString acc) (unicode_escape c ++ s) = lex (LString (c :: acc)) s.
Proof.
  intros Hc. unfold unicode_escape. cbn [app].
  rewrite lex_string_cons. simpl N.eqb. cbv iota.
  rewrite lex_escape_cons. simpl N.eqb. cbv iota.
  do 4 (rewrite lex_unicode_cons,
          hex_digit_hex_char by (apply N.mod_lt; lia);
        simpl bool_decide; cbv iota).
  do 3 f_equal.
  zify. Z.to_euclidean_division_equations. lia.
Qed.

Lemma lex_escape_unit in_pair acc c s :
  lex (LString acc) (escape_unit in_pair c ++ s) = lex (LString (c :: acc)) s.
Proof.
  unfold escape_unit.
  repeat match goal with
         | |- context [(c =? ?k)%N] =>
             destruct (N.eqb_spec c k) as [-> | ?]; [reflexivity |]
         end.
  cbv iota. destruct (N.ltb_spec c 32) as [Hctl | Hctl].
  { apply lex_unicode_escape. lia. }
  destruct ((is_high_surrogate c || is_low_surrogate c) && negb in_pair)
    eqn:Hsur.
  { apply lex_unicode_escape.
    apply andb_true_iff in Hsur as [Hsur _]. apply orb_true_iff in Hsur.
    unfold is_high_surrogate, is_low_surrogate in Hsur.
    rewrite !andb_true_iff, !N.leb_le in Hsur. lia. }
  cbn [app]. rewrite lex_string_cons.
  rewrite (proj2 (N.eqb_neq c 34)), (proj2 (N.eqb_neq c 92)) by done.
  by rewrite (proj2 (N.ltb_ge c 32)).
Qed.

Lemma lex_escape_from acc prev_high s rest :
  lex (LString acc) (escape_from prev_high s ++ 34%N :: rest)
  = ts ← lex LStart rest; Some (TString (reverse acc ++ s) :: ts).
Proof.
  revert acc prev_high. induction s as [|c s IH]; intros acc prev_high.
  - simpl escape_from. cbn [app]. rewrite lex_string_cons. simpl N.eqb.
    cbv iota. by rewrite app_nil_r.
  - simpl escape_from. rewrite <- app_assoc, lex_escape_unit, IH.
    by rewrite reverse_cons, <- app_assoc.
Qed.

Lemma lex_start_cons c s :
  lex LStart (c :: s)
  = match start_char c with
    | Skip => ts ← lex LStart s; Some ([] ++ ts)
    | Emit t => ts ← lex LStart s; Some ([] ++ t :: ts)
    | Enter st' => ts ← lex st' s; Some ([] ++ ts)
    | Reject => None
    end.
Proof. reflexivity. Qed.

(** A quoted string is one string token. *)
Lemma lex_quote s rest :
  lex LStart (quote s ++ rest) = ts ← lex LStart rest; Some (TString s :: ts).
Proof.
  unfold quote. cbn [app]. rewrite lex_start_cons.
  change (start_char 34) with (Enter (LString [])). cbv iota.
  rewrite <- app_assoc. cbn [app]. rewrite lex_escape_from.
  destruct (lex LStart rest); reflexivity.
Qed.

(** *** Numbers *)

Lemma Forall_is_digit_digits w n :
  0 ≤ n → Forall (λ c, is_digit c = true) (digits w n).
Proof.
  revert n. induction w as [|w IH]; intros n Hn; simpl; [constructor |].
  apply Forall_app. split; [apply IH, Z.div_pos; lia |].
  constructor; [| constructor]. apply digit_of_spec.
  pose proof (Z.mod_pos_bound n 10). lia.
Qed.

Lemma strip_leading_zeros_spec s :
  s ≠ [] → Forall (λ c, is_digit c = true) s →
  ∃ c r, strip_leading_zeros s = c :: r
         ∧ Forall (λ c, is_digit c = true) (c :: r)
         ∧ ((c =? 48)%N && negb (bool_decide (r = [])) = false)
         ∧ number_of_digits (c :: r) = number_of_digits s.
Proof.
  induction s as [|c s IH]; [done |]. intros _ Hall.
  destruct s as [|d s].
  - exists c, []. simpl. split_and!; try done.
    by rewrite andb_false_r.
  - change (strip_leading_zeros (c :: d :: s))
      with (if (c =? 48)%N then strip_leading_zeros (d :: s) else c :: d :: s).
    destruct (N.eqb_spec c 48) as [-> | Hc].
    + destruct IH as (c' & r & -> & Hall' & Hshape & Hnum);
        [done | by inversion Hall |].
      exists c', r. split_and!; try done.
    + exists c, (d :: s). split_and!; try done.
      by rewrite (proj2 (N.eqb_neq c 48)).
Qed.

Lemma log2_digits n : 0 ≤ n → n < 10 ^ Z.of_nat (S (Z.to_nat (Z.log2 n))).
Proof.
  intros Hn. rewrite Nat2Z.inj_succ, Z2Nat.id by apply Z.log2_nonneg.
  destruct (Z.eq_dec n 0) as [-> | Hpos].
  - simpl. lia.
  - pose proof (Z.log2_spec n ltac:(lia)) as [_ Hlt].
    eapply Z.lt_le_trans; [exact Hlt |].
    apply Z.pow_le_mono_l. lia.
Qed.

Lemma stringify_natural_spec n :
  0 ≤ n →
  ∃ c r, stringify_natural n = c :: r
         ∧ Forall (λ c, is_digit c = true) (c :: r)
         ∧ ((c =? 48)%N && negb (bool_decide (r = [])) = false)
         ∧ number_of_digits (c :: r) = Some n.
Proof.
  intros Hn. unfold stringify_natural.
  destruct (strip_leading_zeros_spec (digits (S (Z.to_nat (Z.log2 n))) n))
    as (c & r & Hstrip & Hall & Hshape & Hnum).
  - intros Hnil. apply (f_equal length) in Hnil.
    by rewrite length_digits in Hnil.
  - by apply Forall_is_digit_digits.
  - exists c, r. split_and!; try done.
    rewrite Hnum. apply number_of_digits_digits.
    split; [done | by apply log2_digits].
Qed.

Lemma span_digits_all s :
  Forall (λ c, is_digit c = true) s → span_digits s = (s, []).
Proof.
  induction 1 as [|c s Hc _ IH]; simpl; [done |]. by rewrite Hc, IH.
Qed.

Lemma number_token_natural neg c r n :
  Forall (λ c, is_digit c = true) (c :: r) →
  (c =? 48)%N && negb (bool_decide (r = [])) = false →
  number_of_digits (c :: r) = Some n →
  number_token ((if neg : bool then [45%N] else []) ++ c :: r)
  = Some (TNumber (if neg then - n else n) 0).
Proof.
  intros Hall Hshape Hnum. unfold number_token.
  assert (Hsign : match (if neg then [45%N] else []) ++ c :: r with
                  | c' :: r' =>
                      if (c' =? 45)%N then (true, r')
                      else (false, (if neg then [45%N] else []) ++ c :: r)
                  | [] => (false, (if neg then [45%N] else []) ++ c :: r)
                  end = (neg, c :: r)).
  { destruct neg; [reflexivity |]. cbn [app].
    rewrite (is_digit_not c 45); [done | by inversion Hall | done]. }
  rewrite Hsign. rewrite (span_digits_all _ Hall), Hshape.
  cbn [mbind option_bind]. rewrite bool_decide_eq_true_2 by done.
  rewrite app_nil_r, Hnum. cbn [mbind option_bind length].
  unfold normal_decimal. simpl Z.of_nat.
  destruct (Z.eqb_spec (if neg then - n else n) 0) as [-> | Hne]; [done |].
  simpl. by rewrite Z.mul_1_r.
Qed.

Lemma number_token_integer z :
  ∃ c r, stringify_integer z = c :: r
         ∧ start_char c = Enter (LNumber [c])
         ∧ Forall (λ c, is_number_char c = true) r
         ∧ number_token (c :: r) = Some (TNumber z 0).
Proof.
  assert (Hchars : ∀ l, Forall (λ c, is_digit c = true) l →
                        Forall (λ c, is_number_char c = true) l).
  { intros l Hl. eapply Forall_impl; [exact Hl |]. simpl.
    intros c Hc. unfold is_number_char. by rewrite Hc. }
  assert (Hstart : ∀ c, is_digit c = true ∨ c = 45%N →
                        start_char c = Enter (LNumber [c])).
  { intros c [Hc | ->]; [| reflexivity]. unfold start_char.
    unfold is_digit in Hc. apply andb_true_iff in Hc as [Hlo Hhi].
    apply N.leb_le in Hlo, Hhi.
    assert (is_json_ws c = false) as ->.
    { unfold is_json_ws.
      rewrite !(proj2 (N.eqb_neq c _)) by lia. done. }
    rewrite !(proj2 (N.eqb_neq c _)) by lia.
    unfold is_digit. by rewrite !(proj2 (N.leb_le _ _)) by lia. }
  unfold stringify_integer. destruct (Z.ltb_spec z 0) as [Hneg | Hpos].
  - destruct (stringify_natural_spec (- z)) as (c & r & -> & Hall & Hshape & Hnum);
      [lia |].
    exists 45%N, (c :: r). split_and!; [done | by apply Hstart; right | auto |].
    pose proof (number_token_natural true c r (- z) Hall Hshape Hnum) as Ht.
    cbn [app] in Ht. by rewrite Ht, Z.opp_involutive.
  - destruct (stringify_natural_spec z) as (c & r & -> & Hall & Hshape & Hnum);
      [lia |].
    exists c, r. split_and!; [done | | |].
    + apply Hstart. left. by inversion Hall.
    + apply Hchars. by inversion Hall.
    + exact (number_token_natural false c r z Hall Hshape Hnum).
Qed.

Lemma lex_number_cons acc c s :
  lex (LNumber acc) (c :: s)
  = if is_number_char c then lex (LNumber (c :: acc)) s
    else t ← number_token (reverse acc);
         match start_char c with
         | Skip => ts ← lex LStart s; Some ([t] ++ ts)
         | Emit t' => ts ← lex LStart s; Some ([t] ++ t' :: ts)
         | Enter st' => ts ← lex st' s; Some ([t] ++ ts)
         | Reject => None
         end.
Proof. reflexivity. Qed.

Lemma lex_number_run acc more rest :
  Forall (λ c, is_number_char c = true) more →
  lex (LNumber acc) (more ++ 44%N :: rest)
  = t ← number_token (reverse acc ++ more);
    ts ← lex LStart rest; Some (t :: TComma :: ts).
Proof.
  intros Hmore. revert acc.
  induction Hmore as [|c more Hc _ IH]; intros acc.
  - cbn [app]. rewrite lex_number_cons, app_nil_r. reflexivity.
  - cbn [app]. rewrite lex_number_cons, Hc, IH.
    by rewrite reverse_cons, <- app_assoc.
Qed.

Lemma bind_Some_nil_app {A} (x : option (list A)) :
  (ts ← x; Some ([] ++ ts)) = x.
Proof. by destruct x. Qed.

(** An integer followed by a comma is a number token and a comma. *)
Lemma lex_integer_comma z rest :
  lex LStart (stringify_integer z ++ 44%N :: rest)
  = ts ← lex LStart rest; Some (TNumber z 0 :: TComma :: ts).
Proof.
  destruct (number_token_integer z) as (c & r & -> & Hstart & Hr & Htoken).
  cbn [app]. rewrite lex_start_cons, Hstart, bind_Some_nil_app.
  rewrite lex_number_run by done.
  change (reverse [c] ++ r) with (c :: r). by rewrite Htoken.
Qed.

(** *** Dates *)

Lemma lex_word_cons acc c s :
  lex (LWord acc) (c :: s)
  = if is_word_char c then lex (LWord (c :: acc)) s
    else t ← word_token (reverse acc);
         match start_char c with
         | Skip => ts ← lex LStart s; Some ([t] ++ ts)
         | Emit t' => ts ← lex LStart s; Some ([t] ++ t' :: ts)
         | Enter st' => ts ← lex st' s; Some ([t] ++ ts)
         | Reject => None
         end.
Proof. reflexivity. Qed.

Lemma lex_null c t rest :
  is_word_char c = false → start_char c = Emit t →
  lex LStart (js "null" ++ c :: rest)
  = ts ← lex LStart rest; Some (TNull :: t :: ts).
Proof.
  intros Hc Hstart. js_literals. cbn [app]. rewrite lex_start_cons.
  change (start_char 110) with (Enter (LWord [110%N])). cbv iota.
  rewrite bind_Some_nil_app.
  do 3 (rewrite lex_word_cons; simpl (is_word_char _); cbv iota).
  rewrite lex_word_cons, Hc, Hstart.
  change (word_token (reverse [108; 108; 117; 110]%N)) with (Some TNull).
  reflexivity.
Qed.

Lemma lex_punctuation c t rest :
  start_char c = Emit t →
  lex LStart (c :: rest) = ts ← lex LStart rest; Some (t :: ts).
Proof. intros Hc. by rewrite lex_start_cons, Hc. Qed.

Lemma lex_quote_then s c t rest :
  start_char c = Emit t →
  lex LStart (quote s ++ c :: rest)
  = ts ← lex LStart rest; Some (TString s :: t :: ts).
Proof.
  intros Hc. rewrite lex_quote, (lex_punctuation c t) by done.
  destruct (lex LStart rest); reflexivity.
Qed.

Lemma lex_Date_comma d rest :
  lex LStart (stringify_Date d ++ 44%N :: rest)
  = ts ← lex LStart rest; Some (Date_token d :: TComma :: ts).
Proof.
  destruct d as [|t]; simpl stringify_Date.
  - by apply lex_null.
  - by apply lex_quote_then.
Qed.

Lemma lex_Date_brace d rest :
  lex LStart (stringify_Date d ++ 125%N :: rest)
  = ts ← lex LStart rest; Some (Date_token d :: TRBrace :: ts).
Proof.
  destruct d as [|t]; simpl stringify_Date.
  - by apply lex_null.
  - by apply lex_quote_then.
Qed.

(** *** Event records *)

Lemma lex_stringify_Event ev rest :
  lex LStart (stringify_Event ev ++ rest)
  = ts ← lex LStart rest; Some (Event_tokens ev ++ ts).
Proof.
  unfold stringify_Event. js_literals. rewrite <- !app_assoc. cbn [app].
  rewrite lex_start_cons. change (start_char 123) with (Emit TLBrace).
  cbv iota. cbn [app].
  rewrite (lex_quote_then _ 58 TColon), lex_integer_comma by done.
  do 3 (rewrite (lex_quote_then _ 58 TColon),
          (lex_quote_then _ 44 TComma) by done).
  rewrite (lex_quote_then _ 58 TColon), lex_Date_comma by done.
  rewrite (lex_quote_then _ 58 TColon), lex_Date_brace by done.
  destruct (lex LStart rest); reflexivity.
Qed.

Lemma lex_join_events events rest :
  lex LStart (join (js ",") (stringify_Event <$> events) ++ rest)
  = ts ← lex LStart rest; Some (events_tokens events ++ ts).
Proof.
  js_literals. induction events as [|ev events IH].
  - simpl. by destruct (lex LStart rest).
  - destruct events as [|ev' events].
    + simpl. apply lex_stringify_Event.
    + change (join [44%N] (stringify_Event <$> ev :: ev' :: events))
        with (stringify_Event ev ++ [44%N]
              ++ join [44%N] (stringify_Event <$> ev' :: events)).
      change (events_tokens (ev :: ev' :: events))
        with (Event_tokens ev ++ TComma :: events_tokens (ev' :: events)).
      rewrite <- !app_assoc, lex_stringify_Event. cbn [app].
      rewrite (lex_punctuation 44 TComma) by done. rewrite IH.
      destruct (lex LStart rest); [| done]. cbn [mbind option_bind].
      by rewrite <- app_assoc.
Qed.

Lemma lex_JSON_stringify events :
  lex LStart (JSON_stringify events)
  = Some (TLBracket :: events_tokens events ++ [TRBracket]).
Proof.
  unfold JSON_stringify. js_literals. cbn [app].
  rewrite (lex_punctuation 91 TLBracket) by done.
  by rewrite lex_join_events.
Qed.

(** ** Parsing the tokens *)

Lemma parse_Event_tokens fuel ev rest :
  parse_value (8 + fuel) (Event_tokens ev ++ rest)
  = Some (Event_parsed ev, rest).
Proof.
  unfold Event_tokens, Event_parsed.
  destruct (start ev), (end_ ev); reflexivity.
Qed.

Lemma parse_elements_S fuel ts :
  parse_elements (S fuel) ts
  = '(v, r) ← parse_value fuel ts;
    match r with
    | TComma :: r1 =>
        '(vs, r2) ← parse_elements fuel r1; Some (v :: vs, r2)
    | TRBracket :: r1 => Some ([v], r1)
    | _ => None
    end.
Proof. reflexivity. Qed.

Lemma events_tokens_one ev : events_tokens [ev] = Event_tokens ev.
Proof. reflexivity. Qed.

Lemma events_tokens_more ev ev' events :
  events_tokens (ev :: ev' :: events)
  = Event_tokens ev ++ TComma :: events_tokens (ev' :: events).
Proof. reflexivity. Qed.

Lemma parse_elements_comma fuel ts v r :
  parse_value fuel ts = Some (v, TComma :: r) →
  parse_elements (S fuel) ts
  = '(vs, r') ← parse_elements fuel r; Some (v :: vs, r').
Proof. intros Hv. by rewrite parse_elements_S, Hv. Qed.

Lemma parse_elements_close fuel ts v r :
  parse_value fuel ts = Some (v, TRBracket :: r) →
  parse_elements (S fuel) ts = Some ([v], r).
Proof. intros Hv. by rewrite parse_elements_S, Hv. Qed.

Lemma parse_events_tokens fuel ev events rest :
  parse_elements (9 + length events + fuel)
    (events_tokens (ev :: events) ++ TRBracket :: rest)
  = Some (Event_parsed <$> ev :: events, rest).
Proof.
  revert ev fuel. induction events as [|ev' events IH]; intros ev fuel.
  - replace (9 + length (@nil Event) + fuel)%nat with (S (8 + fuel))
      by (cbn [length]; lia).
    rewrite events_tokens_one.
    apply parse_elements_close, parse_Event_tokens.
  - rewrite events_tokens_more, <- app_assoc, <- app_comm_cons.
    replace (9 + length (ev' :: events) + fuel)%nat
      with (S (9 + length events + fuel)) by (cbn [length]; lia).
    rewrite (parse_elements_comma _ _ (Event_parsed ev)
               (events_tokens (ev' :: events) ++ TRBracket :: rest)).
    + rewrite IH. reflexivity.
    + replace (9 + length events + fuel)%nat
        with (8 + (S (length events) + fuel))%nat by lia.
      apply parse_Event_tokens.
Qed.

Lemma events_tokens_head ev events rest :
  ∃ tail, events_tokens (ev :: events) ++ rest = TLBrace :: tail.
Proof. destruct events; eexists; reflexivity. Qed.

Lemma length_events_tokens ev events :
  length (events_tokens (ev :: events)) = (25 + 26 * length events)%nat.
Proof.
  revert ev. induction events as [|ev' events IH]; intros ev; [done |].
  change (events_tokens (ev :: ev' :: events))
    with (Event_tokens ev ++ TComma :: events_tokens (ev' :: events)).
  rewrite length_app. cbn [length]. rewrite IH.
  change (length (Event_tokens ev)) with 25%nat. lia.
Qed.

Lemma parse_value_array fuel tail :
  parse_value (S fuel) (TLBracket :: TLBrace :: tail)
  = '(vs, r) ← parse_elements fuel (TLBrace :: tail); Some (VArr vs, r).
Proof. reflexivity. Qed.

(** The text [JSON.stringify] writes for the store parses to the array
    of the records' objects, each date as [toJSON] left it. *)
Lemma parse_text_JSON_stringify events :
  parse_text (JSON_stringify events) = Some (VArr (Event_parsed <$> events)).
Proof.
  unfold parse_text. rewrite lex_JSON_stringify. cbn [mbind option_bind].
  destruct events as [|ev events]; [reflexivity |].
  cbn [length]. rewrite length_app, length_events_tokens. cbn [length].
  replace (S (25 + 26 * length events + 1))
    with (9 + length events + (18 + 25 * length events))%nat by lia.
  destruct (events_tokens_head ev events [TRBracket]) as [tail Htail].
  rewrite Htail, parse_value_array, <- Htail.
  rewrite parse_events_tokens. reflexivity.
Qed.

(** ** Reviving the dates *)

Lemma stringify_natural_not_a_word n (w : jsstring) :
  0 ≤ n → Forall (λ c, is_digit c = false) w → w ≠ [] →
  stringify_natural n ≠ w.
Proof.
  intros Hn Hw Hne Heq.
  destruct (stringify_natural_spec n Hn) as (c & r & Hs & Hall & _).
  rewrite Hs in Heq. subst w. inversion Hall. inversion Hw. congruence.
Qed.

Lemma events_of_value_events_value events :
  events_of_value (events_value events) = Some events.
Proof.
  unfold events_of_value, events_value.
  induction events as [|ev events IH]; [done |].
  rewrite fmap_cons. cbn [mapM]. rewrite IH. by destruct ev.
Qed.

Section Reload.
Context `{Engine}.

Lemma reviver_other key v :
  key ≠ js "start" → key ≠ js "end" → reviver key v = v.
Proof.
  intros Hs He. unfold reviver.
  by rewrite !bool_decide_eq_false_2.
Qed.

Lemma reviver_index i v :
  reviver (stringify_natural (Z.of_nat i)) v = v.
Proof.
  apply reviver_other; apply stringify_natural_not_a_word;
    try lia; try done; by repeat constructor.
Qed.

Lemma new_Date_parsed d :
  is_Date d → new_Date (Date_parsed d) = reloaded_Date d.
Proof.
  destruct d as [|t]; [done |]. simpl. intros Ht.
  unfold Date_parse. rewrite parse_iso_toISOString by done.
  unfold TimeClip. destruct (Z.leb_spec (Z.abs t) maxTime); [done | lia].
Qed.

Lemma internalize_Event_parsed name ev :
  name ≠ js "start" → name ≠ js "end" →
  is_Date (start ev) → is_Date (end_ ev) →
  internalize reviver name (Event_parsed ev) = Event_value (reloaded ev).
Proof.
  intros Hs He Hstart Hend. unfold Event_parsed. cbn [internalize].
  rewrite (reviver_other name) by done.
  unfold Event_value, reloaded. cbn [id title description type start end_].
  rewrite <- (new_Date_parsed (start ev)), <- (new_Date_parsed (end_ ev))
    by done.
  destruct (start ev), (end_ ev); reflexivity.
Qed.

Lemma internalize_events_parsed events :
  Forall (λ ev, is_Date (start ev) ∧ is_Date (end_ ev)) events →
  internalize reviver [] (VArr (Event_parsed <$> events))
  = events_value (reloaded <$> events).
Proof.
  intros Hall. cbn [internalize]. rewrite reviver_other by done.
  unfold events_value. f_equal. generalize O.
  induction Hall as [|ev events [Hs He] _ IH]; intros i; [done |].
  rewrite !fmap_cons. f_equal; [| apply IH].
  apply internalize_Event_parsed; try done;
    apply stringify_natural_not_a_word; try lia; try done;
    by repeat constructor.
Qed.

(** What a save and a load make of a store of [Date] objects: the
    records come back in their order, an invalid date as the epoch. *)
Lemma reload_events events localStorage :
  Forall (λ ev, is_Date (start ev) ∧ is_Date (end_ ev)) events →
  reload events localStorage
  = (Normal (events_value (reloaded <$> events)), []).
Proof.
  intros Hall. unfold reload, persist_events.
  rewrite (events_initializer_Some _ (JSON_stringify events))
    by apply lookup_insert_eq.
  rewrite parse_text_JSON_stringify, internalize_events_parsed by done.
  reflexivity.
Qed.

Lemma valid_date_is_Date d : valid_date d → is_Date d ∧ reloaded_Date d = d.
Proof. by intros (t & -> & Ht). Qed.

Lemma reloaded_valid ev : valid_dates ev → reloaded ev = ev.
Proof.
  intros [Hs He]. apply valid_date_is_Date in Hs as [_ Hs], He as [_ He].
  unfold reloaded. rewrite Hs, He. by destruct ev.
Qed.






End Reload.


(* ===================================================================== *)
(** * Part III: more properties of the handlers                            *)
(* ===================================================================== *)

(** ** Filters and the projection *)

Lemma get_truthy_insert_ne (o : gmap (list N) bool) k k' b :
  k ≠ k' → get_truthy (<[k := b]> o) k' = get_truthy o k'.
Proof. intros Hne. unfold get_truthy. by rewrite lookup_insert_ne. Qed.

Lemma get_truthy_insert_eq (o : gmap (list N) bool) k b :
  get_truthy (<[k := b]> o) k = b.
Proof. unfold get_truthy. by rewrite lookup_insert_eq. Qed.

(** X1. Toggling a type twice gives every type the flag it had; when
    the filter state held a flag for the type, as it does for the three
    declared types, the state is the one before. Toggles of two types
    can be made in either order. *)
Theorem toggleFilter_twice (s : State) (t t' : jsstring) :
  (∀ k, get_truthy (filters (toggleFilter t (toggleFilter t s))) k
        = get_truthy (filters s) k)
  ∧ (is_Some (filters s !! t) → toggleFilter t (toggleFilter t s) = s)
  ∧ toggleFilter t (toggleFilter t' s) = toggleFilter t' (toggleFilter t s).
Proof.
  split_and!.
  - intros k. simpl. destruct (decide (t = k)) as [<- | Hne].
    + by rewrite !get_truthy_insert_eq, negb_involutive.
    + by rewrite !get_truthy_insert_ne.
  - intros [b Hb]. destruct s as [ev dm vw zm sq fl sf fd se].
    unfold toggleFilter, setFilters. simpl in *. f_equal.
    rewrite get_truthy_insert_eq, insert_insert_eq, negb_involutive.
    rewrite (get_truthy_own _ _ _ Hb). by apply insert_id.
  - destruct (decide (t = t')) as [<- | Hne]; [done |].
    unfold toggleFilter, setFilters. simpl. f_equal.
    rewrite !get_truthy_insert_ne by done. by apply insert_insert_ne.
Qed.

(** With the initial filter state, [plan] is toggled off and on again. *)
Lemma toggleFilter_twice_witness :
  let s := initial_state [dentist; trip] false in
  is_Some (filters s !! js "plan")
  ∧ toggleFilter (js "plan") (toggleFilter (js "plan") s) = s.
Proof.
  intros s.
  assert (Hplan : is_Some (filters s !! js "plan")) by (by eexists).
  split; [exact Hplan |].
  exact (proj1 (proj2 (toggleFilter_twice s (js "plan") (js "plan"))) Hplan).
Defined.

Lemma List_filter_comm {A} (f g : A → bool) (l : list A) :
  List.filter f (List.filter g l) = List.filter g (List.filter f l).
Proof.
  induction l as [|x l IH]; simpl; [done |].
  destruct (f x) eqn:Hf, (g x) eqn:Hg; simpl; rewrite ?Hf, ?Hg, IH; done.
Qed.

Lemma List_filter_idemp {A} (f : A → bool) (l : list A) :
  List.filter f (List.filter f l) = List.filter f l.
Proof.
  induction l as [|x l IH]; simpl; [done |].
  destruct (f x) eqn:Hf; simpl; rewrite ?Hf, IH; done.
Qed.

Section MoreProjection.
Context `{Engine}.

(** X2. Deleting a record and projecting can be done in either order:
    the projection of the store after [removeEvent] is the projection of
    the store before, without the records that have the id. Projecting
    what is already projected changes nothing. *)
Theorem filteredEvents_after_removeEvent
    (s : State) (id' : Z) (filters : gmap (list N) bool) (query : jsstring) :
  filteredEvents (events (removeEvent id' s)) filters query
  = List.filter (λ ev, negb (id ev =? id'))
      (filteredEvents (events s) filters query)
  ∧ filteredEvents (filteredEvents (events s) filters query) filters query
    = filteredEvents (events s) filters query.
Proof.
  split.
  - rewrite removeEvent_events. unfold filteredEvents.
    apply List_filter_comm.
  - apply List_filter_idemp.
Qed.

(** X3. When the three flags are true and the query is blank, the
    projection of a store whose records all have a declared type is the
    store itself; when the three flags are false it is empty, whatever
    the query. *)
Theorem filteredEvents_all_or_nothing (events : list Event) (query : jsstring) :
  Forall (λ ev, type ev ∈ eventTypes_keys) events →
  (blank query → filteredEvents events (filters_of true true true) query = events)
  ∧ filteredEvents events (filters_of false false false) query = [].
Proof.
  intros Htypes.
  assert (Hflag : ∀ b ev, ev ∈ events →
                          get_truthy (filters_of b b b) (type ev) = b).
  { intros b ev Hev. rewrite Forall_forall in Htypes.
    pose proof (Htypes ev Hev) as Hty.
    unfold eventTypes_keys, eventTypes in Hty. simpl in Hty.
    apply get_truthy_own. rewrite filters_of_lookup.
    rewrite !elem_of_cons, elem_of_nil in Hty.
    repeat case_bool_decide; intuition. }
  split.
  - intros Hblank. apply length_List_filter_all. intros ev Hev.
    apply visible_true. split; [by apply Hflag | by left].
  - apply List_filter_none. intros ev Hev.
    apply visible_false. intros [Hshown _].
    by rewrite Hflag in Hshown.
Qed.

End MoreProjection.

(** The store [dentist; trip] has declared types only, and a query of
    two spaces is blank. *)
Lemma filteredEvents_all_or_nothing_witness :
  Forall (λ ev, type ev ∈ eventTypes_keys) [dentist; trip]
  ∧ blank (js "  ")
  ∧ @filteredEvents ascii_engine [dentist; trip] (filters_of true true true)
      (js "  ") = [dentist; trip]
  ∧ @filteredEvents ascii_engine [dentist; trip]
      (filters_of false false false) (js "  ") = [].
Proof.
  assert (Htypes : Forall (λ ev, type ev ∈ eventTypes_keys) [dentist; trip]).
  { repeat constructor; compute_done. }
  assert (Hblank : blank (js "  ")) by (by repeat constructor).
  destruct (@filteredEvents_all_or_nothing ascii_engine [dentist; trip]
              (js "  ") Htypes) as [Hall Hnone].
  split_and!; [exact Htypes | exact Hblank | by apply Hall | exact Hnone].
Defined.

(** ** What each action leaves alone *)

Section Frames.
Context `{Engine}.

Lemma dispatch_filters a s :
  filters (dispatch a s)
  = match a with
    | FilterCheckbox t => filters (toggleFilter t s)
    | _ => filters s
    end.
Proof.
  destruct a; try reflexivity.
  simpl. unfold handleViewChange. by case_bool_decide.
Qed.

Lemma dispatch_view a s :
  view (dispatch a s)
  = match a with
    | ViewTimeout newView => newView
    | _ => view s
    end.
Proof.
  destruct a; try reflexivity.
  simpl. unfold handleViewChange. by case_bool_decide.
Qed.

(** X4. Only a submission of the form and a deletion change the store,
    so no other action changes what is saved; only a filter checkbox
    changes the filter state; and the view is changed by the callback of
    a timeout and by nothing else, a call of [handleViewChange]
    included. *)
Theorem dispatch_changes_one_part (a : action) (s : State) :
  ((∀ now, a ≠ FormSubmit now) → (∀ id', a ≠ DetailsDelete id') →
   events (dispatch a s) = events s
   ∧ ∀ localStorage, persist_events (events (dispatch a s)) localStorage
                     = persist_events (events s) localStorage)
  ∧ ((∀ t, a ≠ FilterCheckbox t) → filters (dispatch a s) = filters s)
  ∧ ((∀ newView, a ≠ ViewTimeout newView) → view (dispatch a s) = view s).
Proof.
  split_and!.
  - intros Hsubmit Hdelete.
    assert (Hev : events (dispatch a s) = events s).
    { rewrite dispatch_events. destruct a; try done.
      - by destruct (Hsubmit now).
      - by destruct (Hdelete id0). }
    split; [exact Hev |]. intros localStorage. by rewrite Hev.
  - intros Hfilter. rewrite dispatch_filters. destruct a; try done.
    by destruct (Hfilter type0).
  - intros Hview. rewrite dispatch_view. destruct a; try done.
    by destruct (Hview newView).
Qed.

(** X5. From a filter state that holds a flag for each of the three
    declared types and for nothing else, as the initial one does, every
    sequence of the actions the page offers leads to such a filter
    state: each declared type keeps a flag of its own, which is what the
    projection reads for it. *)
Theorem run_keeps_three_flags (s : State) (actions : list action) :
  dom (filters s) = list_to_set eventTypes_keys →
  Forall offered actions →
  dom (filters (run s actions)) = list_to_set eventTypes_keys
  ∧ ∀ t, t ∈ eventTypes_keys →
         ∃ b, filters (run s actions) !! t = Some b
              ∧ get_truthy (filters (run s actions)) t = b.
Proof.
  intros Hdom Hoffered.
  assert (Hrun : dom (filters (run s actions)) = list_to_set eventTypes_keys).
  { revert s Hdom. unfold run.
    induction Hoffered as [|a actions Ha _ IH]; intros s Hdom; [done |].
    simpl. apply IH. rewrite dispatch_filters.
    destruct a; try done. cbn [offered] in Ha.
    unfold toggleFilter. cbn [filters setFilters].
    rewrite dom_insert_L, Hdom.
    apply set_eq. intros k. rewrite elem_of_union, elem_of_singleton.
    split; [| by right]. intros [-> | Hk]; [| done].
    by apply elem_of_list_to_set. }
  split; [exact Hrun |]. intros t Ht.
  assert (Hin : t ∈ dom (filters (run s actions))).
  { rewrite Hrun. by apply elem_of_list_to_set. }
  apply elem_of_dom in Hin as [b Hb]. exists b. split; [done |].
  by apply get_truthy_own.
Qed.

(** X7. Deleting the event that was selected, as the Delete button of
    its details does, leaves no record with its id, a second record
    with the same id included, keeps every record with another id, in
    the order they had, and closes the details. *)
Theorem removeEvent_of_the_selected (s : State) (event : Event) :
  let s' := removeEvent (id event) (handleSelectEvent event s) in
  Forall (λ ev, id ev ≠ id event) (events s')
  ∧ (∀ ev, ev ∈ events s' ↔ ev ∈ events s ∧ id ev ≠ id event)
  ∧ events s' `sublist_of` events s
  ∧ selectedEvent (handleSelectEvent event s) = Some event
  ∧ selectedEvent s' = None.
Proof.
  intros s'. unfold s'. rewrite removeEvent_events. simpl.
  assert (Hmem : ∀ ev,
            ev ∈ List.filter (λ ev, negb (id ev =? id event)) (events s)
            ↔ ev ∈ events s ∧ id ev ≠ id event).
  { intros ev.
    by rewrite elem_of_List_filter, negb_true_iff, Z.eqb_neq. }
  split_and!.
  - apply Forall_forall. intros ev Hev. by apply Hmem in Hev as [_ Hne].
  - exact Hmem.
  - apply List_filter_sublist.
  - done.
  - done.
Qed.

End Frames.

(** A search is neither a submission nor a deletion, nor a checkbox,
    nor a timeout. *)
Lemma dispatch_changes_one_part_witness :
  let s := initial_state [dentist; trip] false in
  let a := SearchInput (js "trip") in
  events (@dispatch ascii_engine a s) = events s
  ∧ filters (@dispatch ascii_engine a s) = filters s
  ∧ view (@dispatch ascii_engine a s) = view s.
Proof.
  intros s a.
  destruct (@dispatch_changes_one_part ascii_engine a s)
    as (Hev & Hfl & Hvw).
  split_and!.
  - by apply Hev.
  - by apply Hfl.
  - by apply Hvw.
Defined.

(** From the initial state, three checkboxes and a search. *)
Lemma run_keeps_three_flags_witness :
  let s := initial_state [dentist] false in
  let actions := [FilterCheckbox (js "plan"); SearchInput (js "x");
                  FilterCheckbox (js "other"); FilterCheckbox (js "plan")] in
  dom (filters s) = list_to_set eventTypes_keys
  ∧ Forall offered actions
  ∧ dom (filters (@run ascii_engine s actions)) = list_to_set eventTypes_keys.
Proof.
  intros s actions.
  assert (Hdom : dom (filters s) = list_to_set eventTypes_keys)
    by compute_done.
  assert (Hoffered : Forall offered actions).
  { repeat constructor; compute_done. }
  split_and!; [exact Hdom | exact Hoffered |].
  exact (proj1 (@run_keeps_three_flags ascii_engine s actions Hdom Hoffered)).
Defined.

(** ** A slot, submitted and saved *)

Section Slot.
Context `{Engine}.

Lemma reload_valid events localStorage :
  Forall valid_dates events →
  reload events localStorage = (Normal (events_value events), []).
Proof.
  intros Hvalid. rewrite reload_events.
  - do 3 f_equal. induction Hvalid as [|ev evs Hev _ IH]; [done |].
    rewrite fmap_cons, IH. f_equal. by apply reloaded_valid.
  - eapply Forall_impl; [exact Hvalid |]. intros ev [Hstart Hend].
    split; by apply valid_date_is_Date.
Qed.


End Slot.


(** ** Two view changes within the delay *)

Lemma call_handleViewChange_other newView r :
  view (component r) ≠ newView →
  call_handleViewChange newView r
  = {| component := setZooming true (component r); clock := clock r;
       timers := timers r ++ [(clock r + 150, newView)] |}.
Proof.
  intros Hne. unfold call_handleViewChange, handleViewChange.
  by rewrite bool_decide_eq_false_2.
Qed.

Lemma call_handleViewChange_same r :
  call_handleViewChange (view (component r)) r = r.
Proof.
  unfold call_handleViewChange, handleViewChange.
  rewrite bool_decide_eq_true_2 by done. simpl. rewrite app_nil_r.
  by destruct r.
Qed.

(** X8. A second view is asked for before the timeout of the first has
    run. Both timeouts are then pending, and the view has not changed.
    When the first runs, the view is the first one asked for and the
    flag is cleared, with the second timeout still pending; when the
    second runs the view is the second one. Asking for the current view
    in the meantime sets no timeout and changes nothing. *)
Theorem handleViewChange_twice
    (s : State) (now dt : Z) (first second : jsstring) :
  view s ≠ first → view s ≠ second → 0 ≤ dt < 150 →
  let r1 := call_handleViewChange first (at_rest s now) in
  let r2 := call_handleViewChange second (elapse dt r1) in
  r2 = {| component := setZooming true s; clock := now + dt;
          timers := [(now + 150, first); (now + dt + 150, second)] |}
  ∧ run_timeout 0 (elapse (150 - dt) r2)
    = Some {| component := setZooming false (setView first s);
              clock := now + 150;
              timers := [(now + dt + 150, second)] |}
  ∧ (∀ r3, run_timeout 0 (elapse (150 - dt) r2) = Some r3 →
       run_timeout 0 (elapse dt r3)
       = Some {| component := setZooming false (setView second s);
                 clock := now + 150 + dt; timers := [] |})
  ∧ call_handleViewChange (view s) (elapse dt r1) = elapse dt r1.
Proof.
  intros Hfirst Hsecond Hdt r1 r2.
  assert (Hr1 : r1 = {| component := setZooming true s; clock := now;
                        timers := [(now + 150, first)] |}).
  { unfold r1. by rewrite call_handleViewChange_other. }
  assert (Hr2 : r2 = {| component := setZooming true s; clock := now + dt;
                        timers := [(now + 150, first);
                                   (now + dt + 150, second)] |}).
  { unfold r2. rewrite Hr1. by rewrite call_handleViewChange_other. }
  split_and!.
  - exact Hr2.
  - rewrite Hr2. unfold run_timeout, elapse. simpl.
    destruct (Z.leb_spec (now + 150) (now + dt + (150 - dt))); [| lia].
    do 2 f_equal. lia.
  - intros r3 Hr3. rewrite Hr2 in Hr3. unfold run_timeout, elapse in Hr3.
    simpl in Hr3.
    destruct (Z.leb_spec (now + 150) (now + dt + (150 - dt))); [| lia].
    injection Hr3 as <-. unfold run_timeout, elapse. simpl.
    destruct (Z.leb_spec (now + dt + 150) (now + dt + (150 - dt) + dt));
      [| lia].
    do 2 f_equal. lia.
  - rewrite Hr1. apply (call_handleViewChange_same
      {| component := setZooming true s; clock := now + dt;
         timers := [(now + 150, first)] |}).
Qed.

(** The view is [month]; [week] is asked for at 1000 and [day] 100 ms
    later. *)
Lemma handleViewChange_twice_witness :
  let s := initial_state [] false in
  let r2 := call_handleViewChange (js "day")
              (elapse 100 (call_handleViewChange (js "week")
                             (at_rest s 1000))) in
  view s ≠ js "week" ∧ view s ≠ js "day" ∧ 0 ≤ 100 < 150
  ∧ run_timeout 0 (elapse 50 r2)
    = Some {| component := setZooming false (setView (js "week") s);
              clock := 1150; timers := [(1250, js "day")] |}.
Proof.
  intros s r2.
  assert (H1 : view s ≠ js "week") by (apply (bool_decide_unpack _); done).
  assert (H2 : view s ≠ js "day") by (apply (bool_decide_unpack _); done).
  assert (H3 : 0 ≤ 100 < 150) by lia.
  split_and!; [exact H1 | exact H2 | lia | lia |].
  exact (proj1 (proj2 (handleViewChange_twice s 1000 100 (js "week")
                         (js "day") H1 H2 H3))).
Defined.

(** ** The flag is never left set *)

Section Flag.
Context `{Engine}.

Lemma dispatch_zooming a s :
  (∀ newView, a ≠ ViewSelect newView) →
  (∀ newView, a ≠ ViewTimeout newView) →
  zooming (dispatch a s) = zooming s.
Proof.
  intros Hselect Htimeout. destruct a; try reflexivity.
  - by destruct (Hselect newView).
  - by destruct (Htimeout newView).
Qed.

(** X9. In every run from rest with the flag clear, whatever the user
    does and whenever the timeouts run: while the flag is set a timeout
    is pending, and every pending timeout is due at most 150 ms from
    now. So the flag is never left set with nothing to clear it. *)
Theorem zooming_has_a_pending_timeout (s : State) (now : Z) (r : Runtime) :
  zooming s = false →
  rtc step (at_rest s now) r →
  (zooming (component r) = true → timers r ≠ [])
  ∧ Forall (λ t, t.1 ≤ clock r + 150) (timers r)
  ∧ now ≤ clock r.
Proof.
  intros Hrest. revert r. apply rtc_ind_r.
  - simpl. split_and!; [congruence | constructor | lia].
  - intros r r' _ Hstep (Hflag & Hdue & Hclock).
    destruct Hstep as [r newView | r a Hselect Htimeout | r r' Hidle].
    + destruct (decide (view (component r) = newView)) as [<- | Hne].
      * by rewrite call_handleViewChange_same.
      * rewrite call_handleViewChange_other by done. simpl.
        split_and!; [| | done].
        -- intros _ Hnil. by apply app_eq_nil in Hnil as [_ ?].
        -- apply Forall_app. split; [done |]. repeat constructor. simpl. lia.
    + simpl. by rewrite dispatch_zooming.
    + destruct Hidle as [r dt Hdt | r i r' Htimeout].
      * simpl. split_and!; [done | | lia].
        eapply Forall_impl; [exact Hdue |]. simpl. intros t Ht. lia.
      * unfold run_timeout in Htimeout.
        destruct (timers r !! i) as [[due newView]|] eqn:Hi; [| done].
        destruct (due <=? clock r); [| done].
        injection Htimeout as <-. simpl. split_and!; [done | | done].
        by apply Forall_delete.
Qed.

End Flag.

(** From rest, [week] is asked for and 200 ms pass: the flag is set and
    the timeout is pending. *)
Lemma zooming_has_a_pending_timeout_witness :
  let s := initial_state [] false in
  let r := elapse 200 (call_handleViewChange (js "week") (at_rest s 0)) in
  zooming s = false
  ∧ rtc (@step ascii_engine) (at_rest s 0) r
  ∧ zooming (component r) = true
  ∧ timers r ≠ [].
Proof.
  intros s r.
  assert (Hrest : zooming s = false) by reflexivity.
  assert (Hrun : rtc (@step ascii_engine) (at_rest s 0) r).
  { eapply rtc_l; [apply step_view |].
    eapply rtc_l; [| apply rtc_refl].
    apply step_idle, idle_elapse. lia. }
  assert (Hflag : zooming (component r) = true) by reflexivity.
  split_and!; [exact Hrest | exact Hrun | exact Hflag |].
  exact (proj1 (@zooming_has_a_pending_timeout ascii_engine s 0 r Hrest Hrun)
           Hflag).
Defined.

(** ** Saving and loading any store *)

Section AnyStore.
Context `{Engine}.

Lemma internalize_Event_parsed_any name ev :
  name ≠ js "start" → name ≠ js "end" →
  internalize reviver name (Event_parsed ev) = Event_value (revived ev).
Proof.
  intros Hs He. unfold Event_parsed. cbn [internalize].
  rewrite (reviver_other name) by done.
  unfold Event_value, revived. cbn [id title description type start end_].
  destruct (start ev), (end_ ev); reflexivity.
Qed.

Lemma internalize_events_parsed_any events :
  internalize reviver [] (VArr (Event_parsed <$> events))
  = events_value (revived <$> events).
Proof.
  cbn [internalize]. rewrite reviver_other by done.
  unfold events_value. f_equal. generalize O.
  induction events as [|ev events IH]; intros i; [done |].
  rewrite !fmap_cons. f_equal; [| apply IH].
  apply internalize_Event_parsed_any;
    apply stringify_natural_not_a_word; try lia; try done;
    by repeat constructor.
Qed.

Lemma JSON_stringify_truthy events : string_truthy (JSON_stringify events) = true.
Proof. reflexivity. Qed.

(** X10. Whatever the store holds, titles with quotes, backslashes,
    control characters or unpaired surrogates and dates of any kind
    included, the text that is saved is read back without a warning, as
    an array of as many records, in the same order, each with the id,
    the title, the description and the type it had. A start or an end
    that is a [Date] comes back as it was when it is valid, and as the
    epoch when it is the invalid date. *)
Theorem reload_keeps_every_record
    (events : list Event) (localStorage : gmap (list N) (list N)) :
  reload events localStorage = (Normal (events_value (revived <$> events)), [])
  ∧ events_of_value (events_value (revived <$> events))
    = Some (revived <$> events)
  ∧ length (revived <$> events) = length events
  ∧ id <$> (revived <$> events) = id <$> events
  ∧ title <$> (revived <$> events) = title <$> events
  ∧ description <$> (revived <$> events) = description <$> events
  ∧ type <$> (revived <$> events) = type <$> events
  ∧ (∀ ev, is_Date (start ev) → start (revived ev) = reloaded_Date (start ev))
  ∧ (∀ ev, is_Date (end_ ev) → end_ (revived ev) = reloaded_Date (end_ ev)).
Proof.
  split_and!.
  - unfold reload, persist_events.
    rewrite (events_initializer_Some _ (JSON_stringify events))
      by apply lookup_insert_eq.
    by rewrite JSON_stringify_truthy, parse_text_JSON_stringify,
      internalize_events_parsed_any.
  - apply events_of_value_events_value.
  - apply length_fmap.
  - by rewrite <- list_fmap_compose.
  - by rewrite <- list_fmap_compose.
  - by rewrite <- list_fmap_compose.
  - by rewrite <- list_fmap_compose.
  - intros ev. apply new_Date_parsed.
  - intros ev. apply new_Date_parsed.
Qed.

Lemma reloaded_Date_valid d : is_Date d → valid_date (reloaded_Date d).
Proof.
  destruct d as [|t]; simpl.
  - intros _. exists 0. split; [done |]. unfold maxTime. lia.
  - intros Ht. by exists t.
Qed.

(** X11. One save and load settles a store of [Date] objects: the
    invalid dates have become the epoch, and saving and loading once
    more gives the same records again. *)
Theorem reload_twice
    (events : list Event) (localStorage : gmap (list N) (list N)) :
  Forall (λ ev, is_Date (start ev) ∧ is_Date (end_ ev)) events →
  reload events localStorage
  = (Normal (events_value (reloaded <$> events)), [])
  ∧ reload (reloaded <$> events) localStorage
    = (Normal (events_value (reloaded <$> events)), []).
Proof.
  intros Hdates. split; [by apply reload_events |].
  apply reload_valid. apply Forall_fmap.
  eapply Forall_impl; [exact Hdates |]. intros ev [Hs He].
  split; by apply reloaded_Date_valid.
Qed.

End AnyStore.

(** A store with one record whose end is the invalid date. *)
Lemma reload_twice_witness :
  Forall (λ ev, is_Date (start ev) ∧ is_Date (end_ ev)) [open_end]
  ∧ end_ <$> (reloaded <$> [open_end]) = [TimeValue 0]
  ∧ @reload ascii_engine (reloaded <$> [open_end]) ∅
    = (Normal (events_value (reloaded <$> [open_end])), []).
Proof.
  assert (Hdates : Forall (λ ev, is_Date (start ev) ∧ is_Date (end_ ev))
                     [open_end]).
  { apply Forall_singleton. split; simpl; [unfold maxTime; lia | done]. }
  split_and!; [exact Hdates | reflexivity |].
  exact (proj2 (@reload_twice ascii_engine [open_end] ∅ Hdates)).
Defined.

(** ** The theme *)

Lemma parse_text_stringify_bool b :
  parse_text (stringify_bool b) = Some (VBool b).
Proof. by destruct b. Qed.

Lemma darkMode_initializer_Some localStorage saved :
  localStorage !! js "calendarDarkMode" = Some saved →
  darkMode_initializer localStorage
  = if string_truthy saved then JSON_parse_plain saved
    else Normal (VBool false).
Proof. unfold darkMode_initializer. by intros ->. Qed.

(** X12. The theme survives a reload: after the effect has run for a
    value of [darkMode], the initialiser gives that value. The effect
    leaves the class [dark] on the body exactly when the value is true
    and changes no other class; with no entry, or an empty one, the
    initialiser gives false. *)
Theorem darkMode_survives_a_reload
    (darkMode : bool) (localStorage : gmap (list N) (list N))
    (classList : gset (list N)) :
  darkMode_initializer (darkMode_effect darkMode (localStorage, classList)).1
  = Normal (VBool darkMode)
  ∧ (js "dark" ∈ (darkMode_effect darkMode (localStorage, classList)).2
     ↔ darkMode = true)
  ∧ (∀ c, c ≠ js "dark" →
          c ∈ (darkMode_effect darkMode (localStorage, classList)).2
          ↔ c ∈ classList)
  ∧ darkMode_initializer (delete (js "calendarDarkMode") localStorage)
    = Normal (VBool false)
  ∧ darkMode_initializer (<[js "calendarDarkMode" := []]> localStorage)
    = Normal (VBool false).
Proof.
  split_and!.
  - simpl. rewrite (darkMode_initializer_Some _ (stringify_bool darkMode))
      by apply lookup_insert_eq.
    unfold JSON_parse_plain. rewrite parse_text_stringify_bool.
    by destruct darkMode.
  - destruct darkMode; simpl;
      rewrite ?elem_of_union, ?elem_of_difference, ?elem_of_singleton;
      intuition congruence.
  - intros c Hc. destruct darkMode; simpl;
      rewrite ?elem_of_union, ?elem_of_difference, ?elem_of_singleton;
      intuition congruence.
  - unfold darkMode_initializer. by rewrite lookup_delete_eq.
  - by rewrite (darkMode_initializer_Some _ []) by apply lookup_insert_eq.
Qed.

Section ThemeAndStore.
Context `{Engine}.

(** X13. An entry for the theme that is not JSON makes the initialiser
    of [darkMode] throw the [SyntaxError] of [JSON.parse]: nothing
    catches it there. The same text under the key of the events is
    caught, and the store starts empty. *)
Theorem darkMode_initializer_throws
    (localStorage : gmap (list N) (list N)) (saved : jsstring) :
  saved ≠ [] → parse_text saved = None →
  darkMode_initializer (<[js "calendarDarkMode" := saved]> localStorage)
  = Throw SyntaxError
  ∧ events_initializer (<[js "calendarEvents" := saved]> localStorage)
    = (Normal (VArr []),
       [Warn (js "Failed to parse saved events") SyntaxError]).
Proof.
  intros Hsaved Hbad.
  assert (Htruthy : string_truthy saved = true) by (by destruct saved).
  split.
  - rewrite (darkMode_initializer_Some _ saved) by apply lookup_insert_eq.
    unfold JSON_parse_plain. by rewrite Htruthy, Hbad.
  - rewrite (events_initializer_Some _ saved) by apply lookup_insert_eq.
    by rewrite Htruthy, Hbad.
Qed.

(** X14. The two entries do not touch each other: saving the events
    leaves what the initialiser of [darkMode] reads, the effect of
    [darkMode] leaves what the initialiser of [events] reads, and a save
    of the events replaces the one before. *)
Theorem the_entries_are_independent
    (events events' : list Event) (darkMode : bool)
    (localStorage : gmap (list N) (list N)) (classList : gset (list N)) :
  darkMode_initializer (persist_events events localStorage)
  = darkMode_initializer localStorage
  ∧ events_initializer (darkMode_effect darkMode (localStorage, classList)).1
    = events_initializer localStorage
  ∧ persist_events events' (persist_events events localStorage)
    = persist_events events' localStorage
  ∧ (persist_events events
       (darkMode_effect darkMode (localStorage, classList)).1
     = (darkMode_effect darkMode
          (persist_events events localStorage, classList)).1).
Proof.
  split_and!.
  - unfold darkMode_initializer, persist_events.
    by rewrite lookup_insert_ne.
  - unfold events_initializer, darkMode_effect. simpl.
    by rewrite lookup_insert_ne.
  - unfold persist_events. apply insert_insert_eq.
  - unfold persist_events, darkMode_effect. simpl.
    by apply insert_insert_ne.
Qed.

End ThemeAndStore.

(** The text [{not json] under the key of the theme. *)
Lemma darkMode_initializer_throws_witness :
  js "{not json" ≠ []
  ∧ parse_text (js "{not json") = None
  ∧ darkMode_initializer {[js "calendarDarkMode" := js "{not json"]}
    = Throw SyntaxError.
Proof.
  assert (H1 : js "{not json" ≠ []) by done.
  assert (H2 : parse_text (js "{not json") = None) by reflexivity.
  split_and!; [exact H1 | exact H2 |].
  exact (proj1 (@darkMode_initializer_throws ascii_engine ∅ _ H1 H2)).
Defined.

(** ** What holds in every state the page can reach *)

Section Page.
Context `{Engine}.

Lemma dispatch_formData a s :
  formData (dispatch a s)
  = match a with
    | SelectSlot start end_ => empty_form (VDate start) (VDate end_)
    | FormInput data => data
    | _ => formData s
    end.
Proof.
  destruct a; try reflexivity.
  simpl. unfold handleViewChange. by case_bool_decide.
Qed.

Lemma dispatch_selectedEvent a s :
  selectedEvent (dispatch a s)
  = match a with
    | SelectEvent event => Some event
    | DetailsDelete _ | DetailsClose => None
    | _ => selectedEvent s
    end.
Proof.
  destruct a; try reflexivity.
  simpl. unfold handleViewChange. by case_bool_decide.
Qed.

(** What the form holds in a reachable state: each date is the empty
    string of the initial state or a [Date], and the type is a declared
    one. *)
Lemma reachable_formData events darkMode s :
  rtc ui_step (initial_state events darkMode) s →
  (Form.start (formData s) = VStr [] ∨ ∃ d, Form.start (formData s) = VDate d)
  ∧ (Form.end_ (formData s) = VStr [] ∨ ∃ d, Form.end_ (formData s) = VDate d)
  ∧ Form.type (formData s) ∈ eventTypes_keys.
Proof.
  revert s. apply rtc_ind_r.
  - split_and!; [by left | by left | compute_done].
  - intros s s' _ (a & Ha & ->) (Hstart & Hend & Htype).
    rewrite dispatch_formData.
    destruct a; try done.
    + split_and!; [right; eauto | right; eauto | compute_done].
    + destruct Ha as (_ & f & Hf & ->).
      destruct f; simpl in *; split_and!; eauto.
Qed.

(** X15. In every state the page can reach, [formatForInput] returns on
    both dates of the form: it is given the empty string the form starts
    with or a [Date], never a value without [getFullYear]. *)
Theorem formatForInput_returns_on_the_form
    (LocalTZA : Z → Z) (events : list Event) (darkMode : bool) (s : State) :
  rtc ui_step (initial_state events darkMode) s →
  is_Some (formatForInput LocalTZA (Form.start (formData s)))
  ∧ is_Some (formatForInput LocalTZA (Form.end_ (formData s))).
Proof.
  intros Hrun.
  destruct (reachable_formData _ _ _ Hrun) as (Hstart & Hend & _).
  split.
  - destruct Hstart as [-> | [d ->]]; [done |]. by destruct d.
  - destruct Hend as [-> | [d ->]]; [done |]. by destruct d.
Qed.

(** X16. When the records read from the storage have declared types, so
    has every record of every reachable state: the form's type is always
    one of the three options. Each record is then drawn in the colour of
    its type, never in the default one, and the details give the label
    of its type. *)
Theorem types_stay_declared
    (events : list Event) (darkMode : bool) (s : State) :
  Forall (λ ev, type ev ∈ eventTypes_keys) events →
  rtc ui_step (initial_state events darkMode) s →
  Forall (λ ev, type ev ∈ eventTypes_keys
                ∧ backgroundColor (eventStyleGetter ev) ≠ js "#2196f3"
                ∧ Some (type_label ev, backgroundColor (eventStyleGetter ev))
                  = eventTypes_get (type ev))
         (App.events s).
Proof.
  intros Hevents Hrun.
  assert (Hdeclared : Forall (λ ev, type ev ∈ eventTypes_keys) (App.events s)).
  { revert s Hrun. apply rtc_ind_r; [done |].
    intros s s' Hrun (a & Ha & ->) IH.
    rewrite dispatch_events. destruct a; try done.
    - rewrite handleSubmit_events. apply Forall_app. split; [done |].
      apply Forall_singleton. simpl.
      by destruct (reachable_formData _ _ _ Hrun) as (_ & _ & Htype).
    - rewrite removeEvent_events.
      apply Forall_forall. intros ev [Hin _]%elem_of_List_filter.
      by apply (proj1 (Forall_forall _ _) IH). }
  eapply Forall_impl; [exact Hdeclared |].
  intros ev Hin. split; [done |].
  unfold eventTypes_keys in Hin. simpl in Hin.
  unfold eventStyleGetter, type_label.
  rewrite !elem_of_cons, elem_of_nil in Hin.
  destruct Hin as [-> | [-> | [-> | []]]]; by split.
Qed.

(** X17. The event the details show is in the store, in every reachable
    state: it was one of the events on the calendar when it was clicked,
    and the only way a record leaves the store closes the details. *)
Theorem selected_event_is_stored
    (events : list Event) (darkMode : bool) (s : State) (ev : Event) :
  rtc ui_step (initial_state events darkMode) s →
  selectedEvent s = Some ev →
  ev ∈ App.events s.
Proof.
  intros Hrun. revert s Hrun ev.
  apply (rtc_ind_r
           (λ s, ∀ ev, selectedEvent s = Some ev → ev ∈ App.events s));
    [done |].
  intros s s' _ (a & Ha & ->) IH ev.
  rewrite dispatch_selectedEvent, dispatch_events.
  destruct a; try done; try apply IH.
  - intros [= <-]. simpl in Ha.
    by apply elem_of_filteredEvents in Ha as [Hin _].
  - intros Hsel. rewrite handleSubmit_events.
    apply elem_of_app. left. by apply IH.
Qed.

End Page.

(** A slot with an invalid end is selected on the empty calendar. *)
Lemma formatForInput_returns_on_the_form_witness :
  rtc (@ui_step ascii_engine) (initial_state [] false)
    (@dispatch ascii_engine (SelectSlot (TimeValue 0) InvalidDate) (initial_state [] false))
  ∧ is_Some (formatForInput (λ _, 0)
               (Form.end_ (formData
                  (@dispatch ascii_engine (SelectSlot (TimeValue 0) InvalidDate)
                     (initial_state [] false))))).
Proof.
  assert (Hrun : rtc (@ui_step ascii_engine) (initial_state [] false)
            (@dispatch ascii_engine (SelectSlot (TimeValue 0) InvalidDate)
               (initial_state [] false))).
  { apply rtc_once. by exists (SelectSlot (TimeValue 0) InvalidDate). }
  split; [exact Hrun |].
  exact (proj2 (@formatForInput_returns_on_the_form ascii_engine
                  (λ _, 0) [] false _ Hrun)).
Defined.

(** The form is opened and submitted as it is, beside [dentist]. *)
Lemma types_stay_declared_witness :
  Forall (λ ev, type ev ∈ eventTypes_keys) [dentist]
  ∧ rtc (@ui_step ascii_engine) (initial_state [dentist] false)
      (@dispatch ascii_engine (FormSubmit 5)
         (@dispatch ascii_engine AddEventButton (initial_state [dentist] false)))
  ∧ Forall (λ ev, type ev ∈ eventTypes_keys
                  ∧ backgroundColor (eventStyleGetter ev) ≠ js "#2196f3"
                  ∧ Some (type_label ev, backgroundColor (eventStyleGetter ev))
                    = eventTypes_get (type ev))
      (events (@dispatch ascii_engine (FormSubmit 5)
                 (@dispatch ascii_engine AddEventButton (initial_state [dentist] false)))).
Proof.
  assert (Hevents : Forall (λ ev, type ev ∈ eventTypes_keys) [dentist]).
  { apply Forall_singleton. compute_done. }
  assert (Hrun : rtc (@ui_step ascii_engine) (initial_state [dentist] false)
            (@dispatch ascii_engine (FormSubmit 5)
               (@dispatch ascii_engine AddEventButton (initial_state [dentist] false)))).
  { eapply rtc_l; [by exists AddEventButton |].
    apply rtc_once. by exists (FormSubmit 5). }
  split_and!; [exact Hevents | exact Hrun |].
  exact (@types_stay_declared ascii_engine [dentist] false _ Hevents Hrun).
Defined.

(** [dentist] is clicked on the calendar. *)
Lemma selected_event_is_stored_witness :
  rtc (@ui_step ascii_engine) (initial_state [dentist] false)
    (@dispatch ascii_engine (SelectEvent dentist) (initial_state [dentist] false))
  ∧ selectedEvent (@dispatch ascii_engine (SelectEvent dentist) (initial_state [dentist] false))
    = Some dentist
  ∧ dentist ∈ events (@dispatch ascii_engine (SelectEvent dentist)
                        (initial_state [dentist] false)).
Proof.
  assert (Hrun : rtc (@ui_step ascii_engine) (initial_state [dentist] false)
            (@dispatch ascii_engine (SelectEvent dentist) (initial_state [dentist] false))).
  { apply rtc_once. exists (SelectEvent dentist). split; [| done].
    apply elem_of_filteredEvents. split; [by apply list_elem_of_here |].
    apply visible_true. reflexivity. }
  split_and!; [exact Hrun | reflexivity |].
  exact (@selected_event_is_stored ascii_engine [dentist] false _ dentist
           Hrun eq_refl).
Defined.

(** ** The text of a date in the form *)

Lemma digits_S w n : digits (S w) n = digits w (n / 10) ++ [digit_of (n mod 10)].
Proof. reflexivity. Qed.

(** The digit above the number is a zero. *)
Lemma digits_lead_zero w n :
  0 ≤ n < 10 ^ Z.of_nat w → digits (S w) n = 48%N :: digits w n.
Proof.
  revert n. induction w as [|w IH]; intros n Hn.
  - replace n with 0 by (simpl in Hn; lia). reflexivity.
  - rewrite digits_S, IH, (digits_S w); [done |].
    rewrite Nat2Z.inj_succ, Z.pow_succ_r in Hn by lia.
    Z.to_euclidean_division_equations. nia.
Qed.

(** The first digit of a number written with as many digits as it has is
    not a zero. *)
Lemma digits_head_not_zero k n :
  10 ^ Z.of_nat k ≤ n < 10 ^ Z.of_nat (S k) →
  ∃ c r, digits (S k) n = c :: r ∧ c ≠ 48%N.
Proof.
  revert n. induction k as [|k IH]; intros n Hn.
  - exists (digit_of (n mod 10)), []. split; [done |].
    change (10 ^ Z.of_nat 0) with 1 in Hn.
    change (10 ^ Z.of_nat 1) with 10 in Hn.
    unfold digit_of. Z.to_euclidean_division_equations. lia.
  - destruct (IH (n / 10)) as (c & r & Hd & Hc).
    + rewrite !Nat2Z.inj_succ, !Z.pow_succ_r in Hn by lia.
      rewrite Nat2Z.inj_succ, Z.pow_succ_r by lia.
      Z.to_euclidean_division_equations. nia.
    + exists c, (r ++ [digit_of (n mod 10)]).
      by rewrite (digits_S (S k)), Hd.
Qed.

Lemma strip_leading_zeros_digits k m n :
  10 ^ Z.of_nat k ≤ n < 10 ^ Z.of_nat (S k) →
  strip_leading_zeros (digits (S k + m) n) = digits (S k) n.
Proof.
  intros Hn. induction m as [|m IH].
  - rewrite Nat.add_0_r.
    destruct (digits_head_not_zero k n Hn) as (c & r & -> & Hc).
    simpl. destruct r; [done |].
    by destruct (N.eqb_spec c 48).
  - rewrite <- plus_n_Sm, digits_lead_zero.
    + pose proof (length_digits (S k + m) n) as Hlen.
      destruct (digits (S k + m) n) as [|c r] eqn:Hd; [done |].
      by rewrite <- IH.
    + split; [pose proof (Z.pow_nonneg 10 (Z.of_nat k)); lia |].
      eapply Z.lt_le_trans; [apply Hn |].
      apply Z.pow_le_mono_r; lia.
Qed.

(** A number of [k + 1] digits prints as its digits. *)
Lemma stringify_natural_digits k n :
  10 ^ Z.of_nat k ≤ n < 10 ^ Z.of_nat (S k) →
  stringify_natural n = digits (S k) n.
Proof.
  intros Hn. unfold stringify_natural.
  assert (H0 : 0 < n) by (pose proof (Z.pow_pos_nonneg 10 (Z.of_nat k)); lia).
  assert (Hk : (k ≤ Z.to_nat (Z.log2 n))%nat).
  { pose proof (log2_digits n ltac:(lia)) as Hlog.
    assert (Hlt : 10 ^ Z.of_nat k < 10 ^ Z.of_nat (S (Z.to_nat (Z.log2 n))))
      by lia.
    apply Z.pow_lt_mono_r_iff in Hlt; lia. }
  replace (S (Z.to_nat (Z.log2 n)))
    with (S k + (Z.to_nat (Z.log2 n) - k))%nat by lia.
  by apply strip_leading_zeros_digits.
Qed.

(** [pad] writes a number below 100 with two digits. *)
Lemma pad_digits n : 0 ≤ n ≤ 99 → pad n = digits 2 n.
Proof.
  intros Hn. unfold pad, stringify_integer.
  destruct (Z.ltb_spec n 0); [lia |].
  destruct (Z.eq_dec n 0) as [-> | Hpos]; [reflexivity |].
  destruct (Z.le_gt_cases n 9).
  - rewrite (stringify_natural_digits 0) by (simpl; lia).
    rewrite (digits_lead_zero 1) by (simpl; lia). reflexivity.
  - rewrite (stringify_natural_digits 1) by (simpl; lia). reflexivity.
Qed.

Section Format.
Variable LocalTZA : Z → Z.

(** X18. For a date whose local year has four digits, [formatForInput]
    gives the first sixteen code units of the ISO text of the local
    time: year, month, day, hour and minute as [YYYY-MM-DDTHH:mm], which
    is what a [datetime-local] input takes. *)
Theorem formatForInput_is_the_local_minute (t : Z) :
  1000 ≤ YearFromTime (LocalTime LocalTZA t) ≤ 9999 →
  formatForInput LocalTZA (VDate (TimeValue t))
  = Some (take 16 (toISOString (LocalTime LocalTZA t)))
  ∧ (∀ text, formatForInput LocalTZA (VDate (TimeValue t)) = Some text →
             length text = 16%nat).
Proof.
  intros Hyear.
  assert (Heq : formatForInput LocalTZA (VDate (TimeValue t))
                = Some (take 16 (toISOString (LocalTime LocalTZA t)))).
  { unfold formatForInput, toISOString, iso_year.
    set (lt := LocalTime LocalTZA t) in *.
    pose proof (time_fields_range lt) as (Hh & Hm & _).
    pose proof (date_fields_range lt) as (Hmo & Hd & Hd').
    rewrite !pad_digits by lia.
    unfold stringify_integer.
    destruct (Z.ltb_spec (YearFromTime lt) 0); [lia |].
    rewrite (stringify_natural_digits 3) by (simpl; lia).
    destruct (Z.leb_spec 0 (YearFromTime lt)); [| lia].
    destruct (Z.leb_spec (YearFromTime lt) 9999); [| lia].
    cbn [andb]. reflexivity. }
  split; [exact Heq |].
  intros text. rewrite Heq. intros [= <-].
  rewrite length_take. unfold toISOString, iso_year.
  repeat case_match; rewrite !length_app, !length_digits; simpl; lia.
Qed.

(** X19. [formatForInput] drops the seconds and the milliseconds: two
    dates in the same minute of local time have the same text, whatever
    the year. *)
Theorem formatForInput_same_minute (t t' : Z) :
  LocalTime LocalTZA t / 60000 = LocalTime LocalTZA t' / 60000 →
  formatForInput LocalTZA (VDate (TimeValue t))
  = formatForInput LocalTZA (VDate (TimeValue t')).
Proof.
  intros Hminute. unfold formatForInput.
  set (a := LocalTime LocalTZA t) in *. set (b := LocalTime LocalTZA t') in *.
  assert (Hday : Day a = Day b).
  { unfold Day, msPerDay.
    replace 86400000 with (60000 * 1440) by reflexivity.
    by rewrite <- !Z.div_div, Hminute by lia. }
  assert (Hhour : HourFromTime a = HourFromTime b).
  { unfold HourFromTime.
    replace 3600000 with (60000 * 60) by reflexivity.
    by rewrite <- !Z.div_div, Hminute by lia. }
  assert (Hmin : MinFromTime a = MinFromTime b).
  { unfold MinFromTime. by rewrite Hminute. }
  assert (Hyear : YearFromTime a = YearFromTime b).
  { unfold YearFromTime. by rewrite Hday. }
  assert (Hleap : InLeapYear a = InLeapYear b).
  { unfold InLeapYear. by rewrite Hyear. }
  assert (Hdwy : DayWithinYear a = DayWithinYear b).
  { unfold DayWithinYear. by rewrite Hday, Hyear. }
  assert (Hmonth : MonthFromTime a = MonthFromTime b).
  { unfold MonthFromTime. by rewrite Hleap, Hdwy. }
  assert (Hdate : DateFromTime a = DateFromTime b).
  { unfold DateFromTime. by rewrite Hleap, Hdwy, Hmonth. }
  by rewrite Hyear, Hmonth, Hdate, Hhour, Hmin.
Qed.

End Format.

(** One second past 13:45 on 14 November 2023, two hours east of UTC. *)
Lemma formatForInput_is_the_local_minute_witness :
  1000 ≤ YearFromTime (LocalTime (λ _, 7200000) 1699962301000) ≤ 9999
  ∧ formatForInput (λ _, 7200000) (VDate (TimeValue 1699962301000))
    = Some (js "2023-11-14T13:45").
Proof.
  assert (Hyear : 1000 ≤ YearFromTime (LocalTime (λ _, 7200000) 1699962301000)
                  ≤ 9999) by (vm_compute; split; discriminate).
  split; [exact Hyear |].
  exact (proj1 (formatForInput_is_the_local_minute (λ _, 7200000)
                  1699962301000 Hyear)).
Defined.

(** The first and the last millisecond of a minute. *)
Lemma formatForInput_same_minute_witness :
  LocalTime (λ _, 0) 1699962300000 / 60000
  = LocalTime (λ _, 0) 1699962359999 / 60000
  ∧ formatForInput (λ _, 0) (VDate (TimeValue 1699962300000))
    = formatForInput (λ _, 0) (VDate (TimeValue 1699962359999)).
Proof.
  assert (Hminute : LocalTime (λ _, 0) 1699962300000 / 60000
                    = LocalTime (λ _, 0) 1699962359999 / 60000) by reflexivity.
  split; [exact Hminute |].
  exact (formatForInput_same_minute (λ _, 0) _ _ Hminute).
Defined.

(** ** What an unfilled date input shows *)

(** When [date_filled] fails of a value of the form, [formatForInput]
    throws or gives the empty string or the [NaN] text, none of which a
    [datetime-local] input takes as a date and a time: the input is
    empty, and being [required] it holds the submission back. *)
Lemma date_filled_formatForInput (LocalTZA : Z → Z) (v : value) :
  (∀ d, v = VDate d → is_Date d) →
  date_filled v = false →
  formatForInput LocalTZA v = None
  ∨ formatForInput LocalTZA v = Some []
  ∨ formatForInput LocalTZA v = Some (js "NaN-NaN-NaNTNaN:NaN").
Proof.
  intros Hdate Hfilled. destruct v as [|[]|m e|s|[|t]| |]; simpl; auto.
  - destruct (m =? 0); auto.
  - destruct (string_truthy s); auto.
  - specialize (Hdate _ eq_refl). simpl in Hdate, Hfilled.
    apply Z.leb_gt in Hfilled. lia.
Qed.

(** ** Colours and labels *)

Lemma eventTypes_get_undeclared type :
  type ∉ eventTypes_keys → eventTypes_get type = None.
Proof. apply not_elem_of_list_to_map_1. Qed.

Lemma eventTypes_get_declared type :
  type ∈ eventTypes_keys →
  type = js "reminder" ∨ type = js "plan" ∨ type = js "other".
Proof.
  unfold eventTypes_keys. simpl.
  rewrite !elem_of_cons, elem_of_nil. tauto.
Qed.

(** X20. The colour of an event depends on its type alone. An event
    whose type is not declared, a name inherited from [Object.prototype]
    included, is drawn in the default colour and the details give its
    type as it is; an event of a declared type is drawn in another
    colour, and two declared types never share a colour. *)
Theorem eventStyleGetter_tells_the_types_apart (ev ev' : Event) :
  (type ev = type ev' → eventStyleGetter ev = eventStyleGetter ev')
  ∧ (type ev ∉ eventTypes_keys →
     backgroundColor (eventStyleGetter ev) = js "#2196f3"
     ∧ type_label ev = type ev)
  ∧ (type ev ∈ eventTypes_keys →
     backgroundColor (eventStyleGetter ev) ≠ js "#2196f3")
  ∧ (type ev ∈ eventTypes_keys → type ev' ∈ eventTypes_keys →
     backgroundColor (eventStyleGetter ev)
     = backgroundColor (eventStyleGetter ev') →
     type ev = type ev').
Proof.
  split_and!.
  - unfold eventStyleGetter. by intros ->.
  - intros Hnot. unfold eventStyleGetter, type_label. simpl.
    by rewrite eventTypes_get_undeclared.
  - intros Hin. unfold eventStyleGetter.
    by destruct (eventTypes_get_declared _ Hin) as [-> | [-> | ->]].
  - intros Hin Hin'. unfold eventStyleGetter.
    destruct (eventTypes_get_declared _ Hin) as [-> | [-> | ->]];
      destruct (eventTypes_get_declared _ Hin') as [-> | [-> | ->]];
      by simpl.
Qed.
